(** * llvfs.py: the LLVFS index/data container, its asset-type registry
    and the key/path map, embedded shallowly and checked against the
    properties stated for them.

    Conventions of the embedding:
    - Python integers are [Z]; [bytes] objects are [list byte];
      [str] objects are [string].
    - A Python exception is a value of [exn]; a call that may raise returns
      a [result].
    - Methods of [LLVFS] mutate the two file objects even when they end up
      raising, so they are state transformers returning the outcome
      together with the new store.
    - [datetime.datetime.now()] and [random.randint] are explicit
      arguments. *)

From Stdlib Require Import ZArith Lia List.
From Stdlib.Strings Require Import Byte.
From stdpp Require Import gmap strings list.

Local Open Scope Z_scope.

(** ** Exceptions *)

Inductive exn : Type :=
  | ValueError
  | AttributeError
  | KeyError
  | OverflowError
  | StructError            (* struct.error *)
  | UnsupportedOperation   (* io.UnsupportedOperation *)
  | FileNotFoundError
  | OSError
  | IndexError.

Inductive result (A : Type) : Type :=
  | Ok (a : A)
  | Raise (e : exn).
Arguments Ok {A} a.
Arguments Raise {A} e.

Definition rbind {A B} (r : result A) (k : A -> result B) : result B :=
  match r with
  | Ok a => k a
  | Raise e => Raise e
  end.

Notation "'do' x <- r ; k" := (rbind r (fun x => k))
  (at level 10, x name, r at level 100, k at level 200).

(** ** The asset-type registry [AT] *)

Module AT.

(** The values that occur inside a registry tuple. *)
Inductive pyval : Type :=
  | PyStr (s : string)
  | PyNone
  | PyBool (b : bool).

(** One row of [asset_types]: a 6-tuple. *)
Record row : Type := Row {
  r_description : string;          (* index 0 *)
  r_typename    : string;          (* index 1 *)
  r_humanname   : option string;   (* index 2 *)
  r_link        : bool;
  r_fetch       : bool;
  r_know        : bool
}.

Definition row_items (r : row) : list pyval :=
  [ PyStr (r_description r); PyStr (r_typename r);
    match r_humanname r with Some s => PyStr s | None => PyNone end;
    PyBool (r_link r); PyBool (r_fetch r); PyBool (r_know r) ].

Definition asset_type_names : list string :=
  [ "description"; "typename"; "humanname"; "link"; "fetch"; "know" ]%string.

(** The dict literal, in insertion order (which is also its iteration
    order). *)
Definition asset_types : list (Z * row) :=
  [ (0,   Row "TEXTURE"      "texture"  (Some "texture")         true  false true);
    (1,   Row "SOUND"        "sound"    (Some "sound")           true  true  true);
    (2,   Row "CALLINGCARD"  "callcard" (Some "calling card")    true  false false);
    (3,   Row "LANDMARK"     "landmark" (Some "landmark")        true  true  true);
    (4,   Row "SCRIPT"       "script"   (Some "legacy script")   true  false false);
    (5,   Row "CLOTHING"     "clothing" (Some "clothing")        true  true  true);
    (6,   Row "OBJECT"       "object"   (Some "object")          true  false false);
    (7,   Row "NOTECARD"     "notecard" (Some "note card")       true  false true);
    (8,   Row "CATEGORY"     "category" (Some "folder")          true  false false);
    (10,  Row "LSL_TEXT"     "lsltext"  (Some "lsl2 script")     true  false false);
    (11,  Row "LSL_BYTECODE" "lslbyte"  (Some "lsl bytecode")    true  false false);
    (12,  Row "TEXTURE_TGA"  "txtr_tga" (Some "tga texture")     true  false false);
    (13,  Row "BODYPART"     "bodypart" (Some "body part")       true  true  true);
    (17,  Row "SOUND_WAV"    "snd_wav"  (Some "sound")           true  false false);
    (18,  Row "IMAGE_TGA"    "img_tga"  (Some "targa image")     true  false false);
    (19,  Row "IMAGE_JPEG"   "jpeg"     (Some "jpeg image")      true  false false);
    (20,  Row "ANIMATION"    "animatn"  (Some "animation")       true  true  true);
    (21,  Row "GESTURE"      "gesture"  (Some "gesture")         true  true  true);
    (22,  Row "SIMSTATE"     "simstate" (Some "simstate")        false false false);
    (24,  Row "LINK"         "link"     (Some "sym link")        false false true);
    (25,  Row "FOLDER_LINK"  "link_f"   (Some "sym folder link") false false true);
    (49,  Row "MESH"         "mesh"     (Some "mesh")            false false false);
    (40,  Row "WIDGET"       "widget"   (Some "widget")          false false false);
    (45,  Row "PERSON"       "person"   (Some "person")          false false false);
    (255, Row "UNKNOWN"      "invalid"  None                     false false false);
    (-2,  Row "NONE"         "-1"       None                     false false false)
  ]%string.

(** [d[k]] and [k in d] on a dict given by its items. *)
Fixpoint dict_get {V} (k : Z) (d : list (Z * V)) : option V :=
  match d with
  | [] => None
  | (k', v) :: d' => if Z.eqb k k' then Some v else dict_get k d'
  end.

Definition dict_mem {V} (k : Z) (d : list (Z * V)) : bool :=
  match dict_get k d with Some _ => true | None => false end.

(** [l.index(x)]: position of the first element equal to [x]. *)
Fixpoint index (x : string) (l : list string) : option Z :=
  match l with
  | [] => None
  | y :: l' =>
      if String.eqb x y then Some 0
      else match index x l' with Some i => Some (i + 1) | None => None end
  end.

Definition contains (x : string) (l : list string) : bool :=
  match index x l with Some _ => true | None => false end.

(** [__init__]: the tuple of the descriptions, in iteration order. *)
Definition cvars : list string :=
  map (fun entry => r_description (snd entry)) asset_types.

(** [__getitem__] *)
Definition getitem (k : Z) : result (list (string * pyval)) :=
  let k := if negb (dict_mem k asset_types) then 255 else k in
  match dict_get k asset_types with
  | Some t => Ok (combine asset_type_names (row_items t))
  | None => Raise KeyError
  end.

(** [__getattr__] *)
Definition getattr (k : string) : result Z :=
  if contains k cvars then
    match index k cvars with
    | Some i => Ok i
    | None => Raise ValueError
    end
  else Raise AttributeError.

(** [fromFileExtension]; [None] is Python's implicit [return None]. *)
Definition fromFileExtension (v : string) : option Z :=
  let fix scan (d : list (Z * row)) : option Z :=
    match d with
    | [] => None
    | (at_, r) :: d' => if String.eqb (r_typename r) v then Some at_ else scan d'
    end in
  scan asset_types.

(** The code under which a canonical name is registered in the table. *)
Definition registered_code (name : string) : option Z :=
  let fix scan (d : list (Z * row)) : option Z :=
    match d with
    | [] => None
    | (c, r) :: d' => if String.eqb (r_description r) name then Some c else scan d'
    end in
  scan asset_types.

(** The dict returned for the sentinel code 255. *)
Definition UNKNOWN : list (string * pyval) :=
  [ ("description", PyStr "UNKNOWN"); ("typename", PyStr "invalid");
    ("humanname", PyNone); ("link", PyBool false); ("fetch", PyBool false);
    ("know", PyBool false) ]%string.

End AT.

(** ** Integer/float arithmetic used by the size and length bookkeeping *)

Module PyNum.

(** [float(v)] for an integer [v]: the binary64 value nearest to [v], ties
    to even, given as the integer it denotes.  Integers of magnitude below
    [2^53] are represented exactly. *)
Definition round53 (v : Z) : Z :=
  let a := Z.abs v in
  let k := Z.log2 a in
  if k <? 53 then v
  else
    let sh := k - 52 in
    let q := Z.shiftr a sh in
    let r := a - Z.shiftl q sh in
    let half := Z.shiftl 1 (sh - 1) in
    let q' := if (half <? r) || ((r =? half) && Z.odd q) then q + 1 else q in
    Z.sgn v * Z.shiftl q' sh.

(** [v / 1024] (true division of ints).  The quotient is correctly rounded;
    because 1024 is a power of two it is [round53 v / 1024] exactly.  The
    float is returned as its numerator over 1024.  A quotient beyond the
    largest finite binary64 raises [OverflowError]. *)
Definition truediv1024 (v : Z) : result Z :=
  let n := round53 v in
  if 2 ^ 1034 <=? Z.abs n then Raise OverflowError else Ok n.

(** [math.ceil] of the float [n / 1024]. *)
Definition ceil (n : Z) : Z := - ((- n) / 1024).

(** [round] of the float [n / 1024]: nearest integer, ties to even. *)
Definition round (n : Z) : Z :=
  let q := n / 1024 in
  let r := n mod 1024 in
  if r <? 512 then q
  else if 512 <? r then q + 1
  else if Z.even q then q else q + 1.

(** [1024 * math.ceil(v/1024)] *)
Definition ceil1024 (v : Z) : result Z :=
  do x <- truediv1024 v; Ok (1024 * ceil x).

(** [1024 * round(v/1024)] *)
Definition round1024 (v : Z) : result Z :=
  do x <- truediv1024 v; Ok (1024 * round x).

End PyNum.

(** ** [LLVFSEntry] *)

(** A [uuid.UUID], given by its 16 [bytes]. *)
Definition UUID : Type := list byte.

Definition UUID_of_bytes (b : list byte) : result UUID :=
  if (Z.of_nat (length b) =? 16) then Ok b else Raise ValueError.

Module Entry.

Record LLVFSEntry : Type := mkEntry {
  offset     : Z;
  _size      : Z;
  _length    : Z;
  key        : UUID;
  accesstime : Z;     (* a datetime, as seconds since the epoch *)
  filetype   : Z;
  VFS        : bool   (* whether an owning store was given *)
}.

(** [__init__].  [now] stands for [datetime.datetime.now()] and [rnd] for
    the sixteen [random.randint(0,255)] draws. *)
Definition init (now : Z) (rnd : list byte)
    (offset size : Z) (length : option Z) (key : option UUID)
    (accesstime : option Z) (filetype : Z) (vfs : bool) : result LLVFSEntry :=
  do length <-
    (match length with
     | None => PyNum.ceil1024 size
     | Some l => if l <? size then PyNum.ceil1024 size else Ok l
     end);
  do key <-
    (match key with
     | None => UUID_of_bytes rnd
     | Some k => Ok k
     end);
  let accesstime := match accesstime with None => now | Some t => t end in
  Ok (mkEntry offset size length key accesstime filetype vfs).

(** The [size] property. *)
Definition size (e : LLVFSEntry) : Z := _size e.

Definition set_size (e : LLVFSEntry) (v : Z) : result LLVFSEntry :=
  do l <- (if _length e <? v then PyNum.ceil1024 v else Ok (_length e));
  Ok (mkEntry (offset e) v l (key e) (accesstime e) (filetype e) (VFS e)).

(** The [length] property. *)
Definition length (e : LLVFSEntry) : Z := _size e.

Definition set_length (e : LLVFSEntry) (v : Z) : result LLVFSEntry :=
  do v <- (if negb (v mod 1024 =? 0) then PyNum.round1024 v else Ok v);
  do l <- (if v <? _size e then PyNum.ceil1024 (_size e) else Ok v);
  Ok (mkEntry (offset e) (_size e) l (key e) (accesstime e) (filetype e) (VFS e)).

End Entry.

(** ** Binary file objects

    A file object opened by [open(name, mode + "b")]: the bytes of the file
    as they are once everything written has reached it, and the stream
    position.  Positions are unbounded integers. *)

Module IO.

Inductive fmode : Type := RB | WB | AB.

Record file : Type := File {
  f_mode  : fmode;
  f_bytes : list byte;
  f_pos   : Z
}.

Definition len (b : list byte) : Z := Z.of_nat (length b).

(** [open]: [existing] is the content of the named file, if there is one. *)
Definition open (existing : option (list byte)) (mode : string) : result file :=
  if String.eqb mode "rb" then
    match existing with
    | Some b => Ok (File RB b 0)
    | None => Raise FileNotFoundError
    end
  else if String.eqb mode "wb" then Ok (File WB [] 0)
  else if String.eqb mode "ab" then
    let b := match existing with Some b => b | None => [] end in
    Ok (File AB b (len b))
  else Raise ValueError.

Definition seek (offset : Z) (f : file) : result Z * file :=
  if offset <? 0 then (Raise OSError, f)
  else (Ok offset, File (f_mode f) (f_bytes f) offset).

Definition tell (f : file) : Z := f_pos f.

(** [read(size)]; [None] is a call without argument. *)
Definition read (size : option Z) (f : file) : result (list byte) * file :=
  match f_mode f with
  | RB =>
      let rest := drop (Z.to_nat (f_pos f)) (f_bytes f) in
      let all := (Ok rest, File RB (f_bytes f) (f_pos f + len rest)) in
      match size with
      | None => all
      | Some n =>
          if n <? -1 then (Raise ValueError, f)
          else if n =? -1 then all
          else
            let got := take (Z.to_nat n) rest in
            (Ok got, File RB (f_bytes f) (f_pos f + len got))
      end
  | _ => (Raise UnsupportedOperation, f)
  end.

(** [write(data)]: at the stream position for ["wb"] (a position past the
    end leaves a gap of zero bytes), always at the end for ["ab"]. *)
Definition write (data : list byte) (f : file) : result Z * file :=
  match f_mode f with
  | RB => (Raise UnsupportedOperation, f)
  | WB =>
      match data with
      | [] => (Ok 0, f)
      | _ =>
          let p := Z.to_nat (f_pos f) in
          let b := f_bytes f in
          (Ok (len data),
           File WB
             (take p b ++ replicate (p - length b) x00 ++ data
              ++ drop (p + length data) b)
             (f_pos f + len data))
      end
  | AB =>
      let b := f_bytes f ++ data in
      (Ok (len data), File AB b (len b))
  end.

End IO.

(** ** [struct.Struct("<III16sHI")] *)

Module Struct.

Definition byte_of_Z (x : Z) : byte :=
  match Byte.of_N (Z.to_N (x mod 256)) with
  | Some b => b
  | None => x00
  end.

Definition Z_of_byte (b : byte) : Z := Z.of_N (Byte.to_N b).

(** Little-endian unsigned integers. *)
Fixpoint le_bytes (n : nat) (x : Z) : list byte :=
  match n with
  | O => []
  | S n' => byte_of_Z x :: le_bytes n' (x / 256)
  end.

Fixpoint le_int (bs : list byte) : Z :=
  match bs with
  | [] => 0
  | b :: bs' => Z_of_byte b + 256 * le_int bs'
  end.

(** Formats [I] (4 bytes) and [H] (2 bytes): out-of-range arguments raise
    [struct.error]. *)
Definition pack_uint (n : nat) (x : Z) : result (list byte) :=
  if (0 <=? x) && (x <? 256 ^ Z.of_nat n) then Ok (le_bytes n x)
  else Raise StructError.

(** Format [16s]: truncated or padded with null bytes to 16 bytes. *)
Definition pack_16s (b : list byte) : list byte :=
  take 16 b ++ replicate (16 - length b) x00.

(** The tuple produced by unpacking one record. *)
Record items : Type := Items {
  item0 : Z;            (* I   *)
  item1 : Z;            (* I   *)
  item2 : Z;            (* I   *)
  item3 : list byte;    (* 16s *)
  item4 : Z;            (* H   *)
  item5 : Z             (* I   *)
}.

Definition size : nat := 34.

Definition pack (v0 v1 v2 : Z) (v3 : list byte) (v4 v5 : Z)
  : result (list byte) :=
  do b0 <- pack_uint 4 v0;
  do b1 <- pack_uint 4 v1;
  do b2 <- pack_uint 4 v2;
  do b4 <- pack_uint 2 v4;
  do b5 <- pack_uint 4 v5;
  Ok (b0 ++ b1 ++ b2 ++ pack_16s v3 ++ b4 ++ b5).

(** Unpacking a buffer of [size] bytes. *)
Definition unpack (r : list byte) : items :=
  Items (le_int (take 4 r))
        (le_int (take 4 (drop 4 r)))
        (le_int (take 4 (drop 8 r)))
        (take 16 (drop 12 r))
        (le_int (take 2 (drop 28 r)))
        (le_int (take 4 (drop 30 r))).

Fixpoint chunks (n : nat) (buf : list byte) : list (list byte) :=
  match n with
  | O => []
  | S n' => take size buf :: chunks n' (drop size buf)
  end.

(** [iter_unpack]: the length check is made when the iterator is created,
    before any record is produced. *)
Definition iter_unpack (buf : list byte) : result (list items) :=
  if negb (Nat.eqb (length buf mod size) 0) then Raise StructError
  else Ok (map unpack (chunks (length buf / size) buf)).

End Struct.

(** ** [LLVFS] *)

Module VFS.

Import IO.

Abbreviation LLVFSEntry := Entry.LLVFSEntry.

Record LLVFS : Type := mkVFS {
  mode      : string;
  entries   : list LLVFSEntry;
  keymap    : list UUID;
  indexFile : file;
  dataFile  : file
}.

(** Methods run in a state-and-exception monad over the store: the store
    reached so far is kept when an exception is raised. *)
Definition M (A : Type) : Type := LLVFS -> result A * LLVFS.

Definition ret {A} (a : A) : M A := fun s => (Ok a, s).

Definition lift {A} (r : result A) : M A := fun s => (r, s).

Definition bind {A B} (m : M A) (k : A -> M B) : M B :=
  fun s =>
    match m s with
    | (Ok a, s') => k a s'
    | (Raise e, s') => (Raise e, s')
    end.

Definition get : M LLVFS := fun s => (Ok s, s).

Definition on_indexFile {A} (op : file -> result A * file) : M A :=
  fun s =>
    let (r, f) := op (indexFile s) in
    (r, mkVFS (mode s) (entries s) (keymap s) f (dataFile s)).

Definition on_dataFile {A} (op : file -> result A * file) : M A :=
  fun s =>
    let (r, f) := op (dataFile s) in
    (r, mkVFS (mode s) (entries s) (keymap s) (indexFile s) f).

Definition append_entry (e : LLVFSEntry) : M unit :=
  fun s =>
    (Ok tt, mkVFS (mode s) (entries s ++ [e]) (keymap s) (indexFile s) (dataFile s)).

Definition append_key (k : UUID) : M unit :=
  fun s =>
    (Ok tt, mkVFS (mode s) (entries s) (keymap s ++ [k]) (indexFile s) (dataFile s)).

Notation "'run' x <- m ; k" := (bind m (fun x => k))
  (at level 10, x name, m at level 100, k at level 200).
Notation "'exec' m ; k" := (bind m (fun _ => k))
  (at level 10, m at level 100, k at level 200).

(** ASCII [str.lower]; no other character lowers to "r", "w" or "a". *)
Definition lower_ascii (c : Ascii.ascii) : Ascii.ascii :=
  let n := Ascii.nat_of_ascii c in
  if (Nat.leb 65 n) && (Nat.leb n 90) then Ascii.ascii_of_nat (n + 32) else c.

Fixpoint lower (s : string) : string :=
  match s with
  | EmptyString => EmptyString
  | String c s' => String (lower_ascii c) (lower s')
  end.

(** [uuid.UUID.__eq__] *)
Fixpoint UUID_eqb (a b : UUID) : bool :=
  match a, b with
  | [], [] => true
  | x :: a', y :: b' => Byte.eqb x y && UUID_eqb a' b'
  | _, _ => false
  end.

(** [l.index(k)] on a list of keys. *)
Fixpoint key_index (k : UUID) (l : list UUID) : option nat :=
  match l with
  | [] => None
  | k' :: l' =>
      if UUID_eqb k' k then Some O
      else match key_index k l' with Some i => Some (S i) | None => None end
  end.

(** A key argument: a [str] or a [uuid.UUID]. *)
Inductive key_arg : Type :=
  | KStr (s : string)
  | KUUID (u : UUID).

Section Methods.

(** [uuid.UUID(s)] for a string [s]. *)
Variable UUID_of_str : string -> result UUID.

Definition resolve_key (key : key_arg) : result UUID :=
  match key with
  | KStr s => UUID_of_str s
  | KUUID u => Ok u
  end.

(** The body of the loop of [loadIndexFile].  The entry is built with
    its key and access time given, so the defaults are not consulted. *)
Fixpoint load_entries (l : list Struct.items) : M unit :=
  match l with
  | [] => ret tt
  | entry :: l' =>
      run key <- lift (UUID_of_bytes (Struct.item3 entry));
      run e <- lift (Entry.init 0 []
                       (Struct.item0 entry) (Struct.item5 entry)
                       (Some (Struct.item1 entry)) (Some key)
                       (Some (Struct.item2 entry)) (Struct.item4 entry) true);
      exec append_entry e;
      exec append_key key;
      load_entries l'
  end.

Definition loadIndexFile : M unit :=
  exec on_indexFile (seek 0);
  run buf <- on_indexFile (read None);
  run l <- lift (Struct.iter_unpack buf);
  load_entries l.

(** [__init__]: [index] and [data] are the contents of the two named
    files, where they exist. *)
Definition init (index data : option (list byte)) (mode : string)
  : result LLVFS :=
  let m := lower mode in
  if negb (String.eqb m "r" || String.eqb m "w" || String.eqb m "a")
  then Raise ValueError
  else
    do fi <- open index (mode ++ "b");
    do fd <- open data (mode ++ "b");
    let self := mkVFS mode [] [] fi fd in
    if String.eqb mode "r" || String.eqb mode "a" then
      match loadIndexFile self with
      | (Ok _, self') => Ok self'
      | (Raise e, _) => Raise e
      end
    else Ok self.

(** [__len__] and [__iter__] *)
Definition len (self : LLVFS) : Z := Z.of_nat (length (entries self)).

Definition iter (self : LLVFS) : list LLVFSEntry := entries self.

(** [fromKey]; [None] is the implicit [return None]. *)
Definition fromKey (key : key_arg) : M (option LLVFSEntry) :=
  run key <- lift (resolve_key key);
  run self <- get;
  match key_index key (keymap self) with
  | Some i =>
      match entries self !! i with
      | Some e => ret (Some e)
      | None => lift (Raise IndexError)
      end
  | None => ret None
  end.

Definition read (offset size : Z) : M (list byte) :=
  exec on_dataFile (seek offset);
  on_dataFile (IO.read (Some size)).

(** [add]: [now] stands for [round(datetime.datetime.now().timestamp())];
    an [accesstime] of [None] or [0] is replaced by it. *)
Definition add (now : Z) (key : key_arg) (filetype : Z) (data : list byte)
    (accesstime : option Z) : M unit :=
  let accesstime :=
    match accesstime with
    | None => now
    | Some t => if t =? 0 then now else t
    end in
  run length <- lift (PyNum.ceil1024 (IO.len data));
  run self <- get;
  let offset := tell (dataFile self) in
  exec on_dataFile (write data);
  exec (if 0 <? length - IO.len data
        then on_dataFile (write (replicate (Z.to_nat (length - IO.len data)) x00))
        else ret 0);
  run k <- lift (resolve_key key);
  run r <- lift (Struct.pack offset length accesstime k filetype (IO.len data));
  exec on_indexFile (write r);
  ret tt.

End Methods.

End VFS.

(** ** [PathMap] *)

Module PathMap.

Record PathMap : Type := mkPathMap {
  pathMapping : gmap string string;
  keyMapping  : gmap string string
}.

Definition findPath (self : PathMap) (path : string) : option string :=
  pathMapping self !! path.

Definition findKey (self : PathMap) (key : string) : option string :=
  keyMapping self !! key.

Definition map (self : PathMap) (key path : string) : PathMap :=
  mkPathMap (<[path := key]> (pathMapping self))
            (<[key := path]> (keyMapping self)).

(** [__init__]: [data] is the items of the dict passed in, if any, in
    iteration order. *)
Definition init (data : option (list (string * string))) : PathMap :=
  let self := mkPathMap ∅ ∅ in
  match data with
  | None => self
  | Some items => fold_left (fun s kv => map s (fst kv) (snd kv)) items self
  end.

End PathMap.

(** ** Further code of the file, and notions for its properties *)

Module EntryIO.

(** [LLVFSEntry.read].  The entry holds a reference to a store or [None];
    the call runs on that store as it is at the time of the call.  The test
    [not self.VFS] holds of [None] and, because [LLVFS] defines [__len__],
    of a store that has no entries. *)
Definition read (e : Entry.LLVFSEntry) : VFS.M (option (list byte)) :=
  fun store =>
    if negb (Entry.VFS e) || (VFS.len store =? 0) then (Ok None, store)
    else
      match VFS.read (Entry.offset e) (Entry.size e) store with
      | (Ok b, store') => (Ok (Some b), store')
      | (Raise x, store') => (Raise x, store')
      end.

End EntryIO.

(** The arguments of one call of [add], with the clock reading at the time
    of the call. *)
Record add_call : Type := AddCall {
  c_now        : Z;
  c_key        : VFS.key_arg;
  c_filetype   : Z;
  c_data       : list byte;
  c_accesstime : option Z
}.

(** A run of [add] calls, one after the other, as in the loops of the
    packing driver: the first exception ends the run. *)
Fixpoint add_each (UUID_of_str : string -> result UUID)
    (calls : list add_call) : VFS.M unit :=
  match calls with
  | [] => VFS.ret tt
  | c :: rest =>
      VFS.bind (VFS.add UUID_of_str (c_now c) (c_key c) (c_filetype c)
                        (c_data c) (c_accesstime c))
               (fun _ => add_each UUID_of_str rest)
  end.

(** A store whose two files are open for writing with their positions at
    the end: what a store opened in write mode is as long as only [add] is
    called on it. *)
Definition append_inv (s : VFS.LLVFS) : Prop :=
  IO.f_mode (VFS.indexFile s) = IO.WB /\
  IO.f_mode (VFS.dataFile s) = IO.WB /\
  IO.f_pos (VFS.indexFile s) = IO.len (IO.f_bytes (VFS.indexFile s)) /\
  IO.f_pos (VFS.dataFile s) = IO.len (IO.f_bytes (VFS.dataFile s)).

(** A computation that changes neither the mode nor the entries nor the
    keys of the store, whatever its outcome. *)
Definition keeps_memory {A} (m : VFS.M A) : Prop :=
  forall s r s',
    m s = (r, s') ->
    VFS.mode s' = VFS.mode s /\ VFS.entries s' = VFS.entries s /\
    VFS.keymap s' = VFS.keymap s.

(** The two directions of a [PathMap] are inverse to each other. *)
Definition consistent (pm : PathMap.PathMap) : Prop :=
  forall key path,
    PathMap.keyMapping pm !! key = Some path <->
    PathMap.pathMapping pm !! path = Some key.

(** Entries laid out back to back from [start]: each begins where the
    stored length of the one before ends. *)
Fixpoint contiguous_from (start : Z) (es : list Entry.LLVFSEntry) : Prop :=
  match es with
  | [] => True
  | e :: es' =>
      Entry.offset e = start /\
      contiguous_from (start + Entry._length e) es'
  end.

Definition total_length (es : list Entry.LLVFSEntry) : Z :=
  fold_right (fun e acc => Entry._length e + acc) 0 es.

(** ** [shortChoices], the abbreviations of the command-line modes

    A [str] is a list of characters of any type with decidable equality;
    the two dicts are finite maps. *)

Module ShortChoices.

Section WithChar.

Context {C : Type} `{Countable C}.

(** The characters "[" and "]". *)
Variables (lbracket rbracket : C).

(** [s.startswith(p)] *)
Fixpoint startswith (s p : list C) {struct p} : bool :=
  match p with
  | [] => true
  | c :: p' =>
      match s with
      | [] => false
      | d :: s' => bool_decide (d = c) && startswith s' p'
      end
  end.

Record shortChoices : Type := mk {
  choices : list (list C);
  mapping : gmap (list C) (list C);
  gnippam : gmap (list C) (list C)
}.

(** [[key for key in self.choices if key.startswith(p)]] *)
Definition matching (cs : list (list C)) (p : list C) : list (list C) :=
  List.filter (fun key => startswith key p) cs.

(** The inner loop of [__init__] for the choice [k], from the index [ix]
    on with [n] indices left: the first [k[:ix+1]] that exactly one choice
    starts with, at which the loop breaks. *)
Fixpoint first_unique (cs : list (list C)) (k : list C) (n ix : nat)
  : option (list C) :=
  match n with
  | O => None
  | S n' =>
      if Nat.eqb (length (matching cs (take (S ix) k))) 1
      then Some (take (S ix) k)
      else first_unique cs k n' (S ix)
  end.

(** [__init__] *)
Definition init (cs : list (list C)) : shortChoices :=
  fold_left
    (fun self k =>
       match first_unique (choices self) k (length k) 0 with
       | Some p =>
           mk (choices self) (<[p := k]> (mapping self))
              (<[k := p]> (gnippam self))
       | None => self
       end)
    cs (mk cs ∅ ∅).

(** [__call__]; [None] is Python's [None]. *)
Definition call (self : shortChoices) (prop : list C) : option (list C) :=
  match mapping self !! prop with
  | Some k => Some k
  | None =>
      if bool_decide (prop ∈ choices self) then Some prop else None
  end.

(** [__contains__] *)
Definition contains (self : shortChoices) (prop : list C) : bool :=
  let prop :=
    match mapping self !! prop with
    | Some k => k
    | None => prop
    end in
  bool_decide (prop ∈ choices self).

(** How a call of [__next__] ends. *)
Inductive outcome : Type :=
  | Returns (text : list C)
  | RaisesStopIteration
  | RaisesKeyError.

(** [__next__], with the counter [self.n] passed in and out. *)
Definition next (self : shortChoices) (n : nat) : outcome * nat :=
  if Nat.ltb n (length (choices self)) then
    match choices self !! n with
    | Some choice =>
        match gnippam self !! choice with
        | Some shortText =>
            (Returns (shortText ++ [lbracket]
                      ++ drop (length shortText) choice ++ [rbracket]),
             S n)
        | None => (RaisesKeyError, n)
        end
    | None => (RaisesStopIteration, n)
    end
  else (RaisesStopIteration, n).

End WithChar.

End ShortChoices.

(** ** [PathMap.loadmap]

    [str.splitlines] and [str.strip] are taken as they are; [print] appends
    to the list of lines printed. *)

Module PathMapLoad.

Import Stdlib.Strings.Ascii.

(** [line.startswith("#")] *)
Definition is_comment (line : string) : bool :=
  match line with
  | String c _ => Ascii.eqb c "#"%char
  | EmptyString => false
  end.

(** The part of [line] before its first space and the part after it, if
    it has a space. *)
Fixpoint cut_at_space (line : string) : option (string * string) :=
  match line with
  | EmptyString => None
  | String c rest =>
      if Ascii.eqb c " "%char then Some (EmptyString, rest)
      else match cut_at_space rest with
           | Some (a, b) => Some (String c a, b)
           | None => None
           end
  end.

(** [line.split(" ", 1)] *)
Definition split1 (line : string) : list string :=
  match cut_at_space line with
  | Some (a, b) => [a; b]
  | None => [line]
  end.

Section WithLibrary.

Variable splitlines : string -> list string.
Variable strip : string -> string.

(** One round of the loop: the map and the lines printed so far, before
    and after. *)
Definition load_line (st : PathMap.PathMap * list string) (line : string)
  : PathMap.PathMap * list string :=
  if String.eqb line "" || is_comment line then st
  else
    let tmp := split1 line in
    if negb (Nat.eqb (length tmp) 2) then
      (fst st, snd st ++ [("Invalid line: " ++ line)%string])
    else
      match tmp with
      | [a; b] => (PathMap.map (fst st) (strip a) (strip b), snd st)
      | _ => st
      end.

Definition loadmap (data : string) : PathMap.PathMap * list string :=
  fold_left load_line (splitlines data) (PathMap.init None, []).

End WithLibrary.

End PathMapLoad.

(** ** Notions used to state the properties of the store *)

(** The records of an index buffer made of whole records, in file order. *)
Definition records (index : list byte) : list Struct.items :=
  map Struct.unpack (Struct.chunks (length index / Struct.size) index).

(** The entry that the loop of [loadIndexFile] builds from one unpacked
    record: a stored length below the size is replaced by the size rounded
    up to a block multiple. *)
Definition entry_of_items (it : Struct.items) : Entry.LLVFSEntry :=
  Entry.mkEntry (Struct.item0 it) (Struct.item5 it)
    (if Struct.item1 it <? Struct.item5 it
     then 1024 * ((Struct.item5 it + 1023) / 1024)
     else Struct.item1 it)
    (Struct.item3 it) (Struct.item2 it) (Struct.item4 it) true.

(** The stores that can be reached after opening one in write mode, by
    calls of [add], [read] and [fromKey], whether they raise or not. *)
Inductive reachable_w (UUID_of_str : string -> result UUID)
  : VFS.LLVFS -> Prop :=
  | reach_open index data s :
      VFS.init index data "w" = Ok s -> reachable_w UUID_of_str s
  | reach_add s now key filetype data accesstime :
      reachable_w UUID_of_str s ->
      reachable_w UUID_of_str
        (snd (VFS.add UUID_of_str now key filetype data accesstime s))
  | reach_read s offset size :
      reachable_w UUID_of_str s ->
      reachable_w UUID_of_str (snd (VFS.read offset size s))
  | reach_fromKey s key :
      reachable_w UUID_of_str s ->
      reachable_w UUID_of_str (snd (VFS.fromKey UUID_of_str key s)).

(** What holds of the two files of such a store: both are open for
    writing, the index file is made of whole records with its position at
    the end, and the position in the data file is not negative. *)
Definition write_inv (s : VFS.LLVFS) : Prop :=
  IO.f_mode (VFS.indexFile s) = IO.WB /\
  IO.f_mode (VFS.dataFile s) = IO.WB /\
  IO.f_pos (VFS.indexFile s) = IO.len (IO.f_bytes (VFS.indexFile s)) /\
  (length (IO.f_bytes (VFS.indexFile s)) mod Struct.size = 0)%nat /\
  0 <= IO.f_pos (VFS.dataFile s).

(** The access time that [add] records. *)
Definition recorded_time (now : Z) (accesstime : option Z) : Z :=
  match accesstime with
  | None => now
  | Some t => if t =? 0 then now else t
  end.

(** A [uuid.UUID(s)] that rejects every string; it stands in where only
    [UUID] keys are passed. *)
Definition no_str_key (s : string) : result UUID := Raise ValueError.

(** An index of two records that carry the same key, at offsets 0 and
    1024. *)
Definition key7 : UUID := replicate 16 x07.

Definition two_records : list byte :=
  match Struct.pack 0 1024 5 key7 18 2, Struct.pack 1024 1024 6 key7 18 3 with
  | Ok r1, Ok r2 => r1 ++ r2
  | _, _ => []
  end.

(** ** Sample values used in the statements below *)

(** A store just opened in write mode, and the store it becomes when the
    two bytes ["hi"] are added under [key7] with type code 18 and access
    time 5. *)
Definition fresh_store : VFS.LLVFS :=
  VFS.mkVFS "w" [] [] (IO.File IO.WB [] 0) (IO.File IO.WB [] 0).

Definition hi_added : VFS.LLVFS :=
  snd (VFS.add no_str_key 7 (VFS.KUUID key7) 18 [x68; x69] (Some 5)
               fresh_store).

(** The modes of the command line, ["pack"], ["unpack"] and ["list"],
    with characters given by their code points. *)
Definition mode_pack : list nat := [112; 97; 99; 107]%nat.
Definition mode_unpack : list nat := [117; 110; 112; 97; 99; 107]%nat.
Definition mode_list : list nat := [108; 105; 115; 116]%nat.
Definition mode_choices : list (list nat) := [mode_pack; mode_unpack; mode_list].

(** Two calls of [add], and the store a fresh one becomes by them. *)
Definition two_calls : list add_call :=
  [ AddCall 7 (VFS.KUUID key7) 18 [x68; x69] (Some 5);
    AddCall 8 (VFS.KUUID key7) 0 (replicate 1025 x01) None ].

Definition two_added : VFS.LLVFS :=
  snd (add_each no_str_key two_calls fresh_store).

(** The entry made by [LLVFSEntry(0, 5)] when the clock reads 0 and the
    random bytes drawn are all zero. *)
Definition entry5 : Entry.LLVFSEntry :=
  Entry.mkEntry 0 5 1024 (replicate 16 x00) 0 0 false.

(** * Properties *)

(** ** Asset-type registry *)

Section Registry.

Import AT.

Lemma dict_mem_get {V} (k : Z) (d : list (Z * V)) :
  dict_mem k d = true -> exists v, dict_get k d = Some v.
Proof.
  unfold dict_mem. destruct (dict_get k d) as [v|]; [eauto | discriminate].
Qed.

(** C9: [AT[k]] returns a dict for every integer [k], and for every [k]
    that is not a key of [asset_types] it returns the dict of the UNKNOWN
    row, the one registered under code 255. *)
Theorem getitem_total (k : Z) :
  (exists d, getitem k = Ok d) /\
  (dict_mem k asset_types = false ->
   getitem k = Ok UNKNOWN /\
   Some UNKNOWN =
     option_map (fun t => combine asset_type_names (row_items t))
                (dict_get 255 asset_types)).
Proof.
  split.
  - unfold getitem. destruct (dict_mem k asset_types) eqn:Hm; cbn [negb].
    + apply dict_mem_get in Hm as [v Hv]. rewrite Hv. eauto.
    + eexists. reflexivity.
  - intros Hm. unfold getitem. rewrite Hm. split; reflexivity.
Qed.

Lemma getitem_total_witness :
  getitem 9 = Ok UNKNOWN /\
  Some UNKNOWN =
    option_map (fun t => combine asset_type_names (row_items t))
               (dict_get 255 asset_types).
Proof. apply (proj2 (getitem_total 9)). reflexivity. Defined.

(** Registered codes are described by their own row. *)
Lemma getitem_registered (k : Z) (t : row) :
  dict_get k asset_types = Some t ->
  getitem k = Ok (combine asset_type_names (row_items t)).
Proof.
  intros H. unfold getitem, dict_mem. rewrite H. cbn [negb]. rewrite H. reflexivity.
Qed.

(** C8: looking up the canonical name ["LSL_TEXT"] returns 9, its position
    in [cvars], whereas the code it is registered under is 10. *)
Theorem getattr_LSL_TEXT_is_position :
  getattr "LSL_TEXT" = Ok 9 /\ registered_code "LSL_TEXT" = Some 10.
Proof. split; reflexivity. Qed.

(** What [__getattr__] returns is the position in the table, which is the
    code only for the first nine rows. *)
Lemma getattr_positions :
  map (fun n => (getattr n, registered_code n)) cvars =
  map (fun ic => (Ok (fst ic), Some (snd ic)))
      [ (0, 0); (1, 1); (2, 2); (3, 3); (4, 4); (5, 5); (6, 6); (7, 7);
        (8, 8); (9, 10); (10, 11); (11, 12); (12, 13); (13, 17); (14, 18);
        (15, 19); (16, 20); (17, 21); (18, 22); (19, 24); (20, 25);
        (21, 49); (22, 40); (23, 45); (24, 255); (25, -2) ].
Proof. vm_compute. reflexivity. Qed.

(** A name that is not a canonical name raises [AttributeError]. *)
Lemma getattr_unregistered (k : string) :
  contains k cvars = false -> getattr k = Raise AttributeError.
Proof. intros H. unfold getattr. rewrite H. reflexivity. Qed.

End Registry.

(** ** Arithmetic of block rounding *)

Section BlockRounding.

Import PyNum.

Lemma round53_small (v : Z) : Z.abs v < 2 ^ 53 -> round53 v = v.
Proof.
  intros H. unfold round53.
  destruct (Z.eq_dec v 0) as [->|Hv]; [reflexivity|].
  assert (Z.log2 (Z.abs v) < 53) as Hl by (apply Z.log2_lt_pow2; lia).
  apply Z.ltb_lt in Hl. rewrite Hl. reflexivity.
Qed.

Lemma ceil1024_small (v : Z) :
  0 <= v < 2 ^ 53 -> ceil1024 v = Ok (1024 * ((v + 1023) / 1024)).
Proof.
  intros H. unfold ceil1024, truediv1024.
  rewrite round53_small by lia.
  assert ((2 ^ 1034 <=? Z.abs v) = false) as ->.
  { apply Z.leb_gt. assert (2 ^ 53 < 2 ^ 1034) by (apply Z.pow_lt_mono_r; lia). lia. }
  simpl. unfold ceil. f_equal. f_equal.
  pose proof (Z.div_mod (- v) 1024 ltac:(lia)).
  pose proof (Z.mod_pos_bound (- v) 1024 ltac:(lia)).
  pose proof (Z.div_mod (v + 1023) 1024 ltac:(lia)).
  pose proof (Z.mod_pos_bound (v + 1023) 1024 ltac:(lia)).
  lia.
Qed.

(** For sizes a float represents exactly, the rounded-up length is the
    least multiple of 1024 that is not below the size. *)
Lemma ceil1024_spec (v l : Z) :
  0 <= v < 2 ^ 53 -> ceil1024 v = Ok l ->
  l mod 1024 = 0 /\ v <= l < v + 1024.
Proof.
  intros H Hc. rewrite ceil1024_small in Hc by assumption.
  injection Hc as <-.
  pose proof (Z.div_mod (v + 1023) 1024 ltac:(lia)).
  pose proof (Z.mod_pos_bound (v + 1023) 1024 ltac:(lia)).
  split; [ rewrite Z.mul_comm; apply Z.mod_mul; lia | lia ].
Qed.

End BlockRounding.

(** ** Entries: the coupling of size and length *)

Section EntryProps.

Import Entry.

(** C2: an entry created with size 5 stores the length 1024, but reading
    its [length] property gives 5, which is not a multiple of 1024. *)
Theorem length_property_reads_size :
  init 0 (replicate 16 x00) 0 5 None None None 0 false = Ok entry5 /\
  _length entry5 = 1024 /\
  length entry5 = 5 /\
  length entry5 mod 1024 <> 0.
Proof. repeat split. vm_compute. discriminate. Qed.

(** The getter of [length] returns the size of every entry. *)
Lemma length_is_size (e : LLVFSEntry) : length e = size e.
Proof. reflexivity. Qed.

(** On the creation path the stored length is a block multiple that
    covers the size. *)
Lemma init_created_length now rnd off sz k t ft vfs e :
  0 <= sz < 2 ^ 53 ->
  init now rnd off sz None k t ft vfs = Ok e ->
  _length e mod 1024 = 0 /\ _size e <= _length e.
Proof.
  intros Hsz. unfold init.
  destruct (PyNum.ceil1024 sz) as [l|] eqn:Hc; [|discriminate].
  apply ceil1024_spec in Hc as [Hm Hb]; [|assumption].
  cbn [rbind]. destruct k as [k|]; cbn [rbind].
  - intros [= <-]. cbn. lia.
  - destruct (UUID_of_bytes rnd); cbn [rbind]; [|discriminate].
    intros [= <-]. cbn. lia.
Qed.

(** On the load path a stored length that covers the size is kept as it
    is, block multiple or not. *)
Lemma init_loaded_length_kept :
  init 0 [] 0 3 (Some 5) (Some (replicate 16 x00)) (Some 0) 0 true
  = Ok (mkEntry 0 3 5 (replicate 16 x00) 0 0 true).
Proof. reflexivity. Qed.

(** C10: assigning to [size] a value that does not exceed the stored
    length succeeds and changes the size only; the stored length differs
    after an assignment only if the value exceeded it. *)
Theorem set_size_keeps_length (e : LLVFSEntry) (v : Z) :
  (v <= _length e ->
   set_size e v =
   Ok (mkEntry (offset e) v (_length e) (key e) (accesstime e)
               (filetype e) (VFS e))) /\
  (forall e', set_size e v = Ok e' ->
              _length e' <> _length e -> _length e < v).
Proof.
  unfold set_size. split.
  - intros Hv. apply Z.ltb_ge in Hv. rewrite Hv. reflexivity.
  - intros e' He' Hne. destruct (_length e <? v) eqn:Hlt.
    + apply Z.ltb_lt. assumption.
    + cbn [rbind] in He'. injection He' as <-. cbn in Hne. congruence.
Qed.

Lemma set_size_keeps_length_witness :
  set_size entry5 1024 = Ok (mkEntry 0 1024 1024 (replicate 16 x00) 0 0 false) /\
  _length entry5 < 1025.
Proof.
  split.
  - apply (proj1 (set_size_keeps_length entry5 1024)). vm_compute. discriminate.
  - apply (proj2 (set_size_keeps_length entry5 1025)
             (mkEntry 0 1025 2048 (replicate 16 x00) 0 0 false)).
    + reflexivity.
    + vm_compute. discriminate.
Defined.

(** An assignment above the stored length re-rounds it. *)
Lemma set_size_grows (e : LLVFSEntry) (v : Z) :
  _length e < v -> 0 <= v < 2 ^ 53 ->
  exists e', set_size e v = Ok e' /\ _size e' = v /\
             _length e' mod 1024 = 0 /\ v <= _length e' < v + 1024.
Proof.
  intros Hlt Hv. unfold set_size.
  apply Z.ltb_lt in Hlt. rewrite Hlt.
  destruct (PyNum.ceil1024 v) as [l|] eqn:Hc.
  - apply ceil1024_spec in Hc as [Hm Hb]; [|assumption].
    eexists. cbn [rbind]. split; [reflexivity|]. cbn. lia.
  - rewrite ceil1024_small in Hc by assumption. discriminate.
Qed.

End EntryProps.

(** ** The key/path map *)

Section PathMapProps.

Import PathMap.

(** C6, as stated, fails: after [map("k", "p")], [findPath("k")] and
    [findKey("p")] both find nothing. *)
Lemma findPath_by_key_finds_nothing :
  findPath (map (init None) "k" "p") "k" <> Some "p"%string /\
  findKey (map (init None) "k" "p") "p" <> Some "k"%string.
Proof. split; vm_compute; discriminate. Qed.

(** C6, amended: after [map(key, path)], [findPath(path)] returns [key]
    and [findKey(key)] returns [path]. *)
Theorem map_then_find (self : PathMap) (key path : string) :
  findPath (map self key path) path = Some key /\
  findKey (map self key path) key = Some path.
Proof.
  unfold findPath, findKey, map; cbn.
  split; apply lookup_insert_eq.
Qed.

(** C7, as stated, fails: after [map("k", "p1")] and [map("k", "p2")], the
    lookup with ["p1"] still yields ["k"]. *)
Lemma remapped_key_leaves_old_path :
  findPath (map (map (init None) "k" "p1") "k" "p2") "p1" = Some "k"%string /\
  findPath (map (map (init None) "k" "p1") "k" "p2") "p2" = Some "k"%string.
Proof. split; vm_compute; reflexivity. Qed.

(** C7, amended: [map(key, path)] changes the entry of [path] in the
    path-to-key dict and the entry of [key] in the key-to-path dict, and
    nothing else; in particular a path mapped earlier to the same key keeps
    pointing to it. *)
Theorem map_overwrites_two_entries (self : PathMap) (key path : string) :
  (forall p, p <> path -> findPath (map self key path) p = findPath self p) /\
  (forall k, k <> key -> findKey (map self key path) k = findKey self k) /\
  (forall p1, p1 <> path ->
     findPath (map (map self key p1) key path) p1 = Some key).
Proof.
  unfold findPath, findKey, map; cbn.
  split; [|split].
  - intros p Hp. apply lookup_insert_ne. congruence.
  - intros k Hk. apply lookup_insert_ne. congruence.
  - intros p1 Hp. rewrite lookup_insert_ne by congruence.
    apply lookup_insert_eq.
Qed.

Lemma map_overwrites_two_entries_witness :
  findPath (map (map (init None) "k1" "p1") "k2" "p2") "p1" = Some "k1"%string /\
  findKey (map (map (init None) "k1" "p1") "k2" "p2") "k1" = Some "p1"%string /\
  findPath (map (map (init None) "k" "p1") "k" "p2") "p1" = Some "k"%string.
Proof.
  split; [|split].
  - rewrite (proj1 (map_overwrites_two_entries
                      (map (init None) "k1" "p1") "k2" "p2") "p1").
    + reflexivity.
    + discriminate.
  - rewrite (proj1 (proj2 (map_overwrites_two_entries
                      (map (init None) "k1" "p1") "k2" "p2")) "k1").
    + reflexivity.
    + discriminate.
  - apply (proj2 (proj2 (map_overwrites_two_entries (init None) "k" "p2")) "p1").
    discriminate.
Defined.

End PathMapProps.

(** ** Reading from the data file *)

Section ReadProps.

Import IO VFS.

Lemma len_take_drop (b : list byte) (offset size : Z) :
  0 <= offset -> 0 <= size ->
  IO.len (take (Z.to_nat size) (drop (Z.to_nat offset) b))
  = Z.min size (Z.max 0 (IO.len b - offset)).
Proof.
  intros Ho Hs. unfold IO.len.
  rewrite length_take, length_drop. lia.
Qed.

(** C5, as stated, fails: asking for 10 bytes of a 3-byte data file
    returns the 3 bytes and raises nothing. *)
Lemma short_read_returns_fewer :
  exists s,
    VFS.init (Some []) (Some [x01; x02; x03]) "r" = Ok s /\
    fst (VFS.read 0 10 s) = Ok [x01; x02; x03].
Proof. eexists. split; reflexivity. Qed.

(** Reading from a data file that is open for reading, with non-negative
    arguments. *)
Lemma read_readable (self : LLVFS) (offset size : Z) :
  f_mode (dataFile self) = RB -> 0 <= offset -> 0 <= size ->
  fst (VFS.read offset size self)
  = Ok (take (Z.to_nat size)
             (drop (Z.to_nat offset) (f_bytes (dataFile self)))).
Proof.
  intros Hm Ho Hs.
  unfold VFS.read, bind, on_dataFile, seek.
  apply Z.ltb_ge in Ho. rewrite Ho. cbn.
  unfold IO.read. cbn. rewrite Hm.
  assert ((size <? -1) = false) as -> by lia.
  assert ((size =? -1) = false) as -> by lia.
  reflexivity.
Qed.

(** C5, amended: on a store whose data file is open for reading,
    [read(offset, size)] with non-negative arguments returns the bytes from
    [offset] up to [size] of them or to the end of the file, whichever
    comes first: exactly [size] bytes when the file holds [offset + size]
    bytes, fewer (without an error) when it does not. *)
Theorem read_returns_available (self : LLVFS) (offset size : Z) :
  f_mode (dataFile self) = RB -> 0 <= offset -> 0 <= size ->
  let got := take (Z.to_nat size)
                  (drop (Z.to_nat offset) (f_bytes (dataFile self))) in
  fst (VFS.read offset size self) = Ok got /\
  IO.len got = Z.min size (Z.max 0 (IO.len (f_bytes (dataFile self)) - offset)) /\
  (offset + size <= IO.len (f_bytes (dataFile self)) -> IO.len got = size).
Proof.
  intros Hm Ho Hs got.
  assert (IO.len got
          = Z.min size (Z.max 0 (IO.len (f_bytes (dataFile self)) - offset)))
    as Hlen by (apply len_take_drop; assumption).
  split; [apply read_readable; assumption|].
  split; [exact Hlen | lia].
Qed.

Lemma read_returns_available_witness :
  fst (VFS.read 1 2 (mkVFS "r" [] [] (File RB [] 0)
                           (File RB [x01; x02; x03; x04] 0)))
  = Ok [x02; x03].
Proof.
  apply (read_returns_available
           (mkVFS "r" [] [] (File RB [] 0) (File RB [x01; x02; x03; x04] 0))
           1 2); [reflexivity | lia | lia].
Defined.

End ReadProps.

(** ** The record codec *)

Section Codec.

Import Struct.

Lemma Z_of_byte_bound (b : byte) : 0 <= Z_of_byte b < 256.
Proof.
  unfold Z_of_byte. pose proof (Byte.to_N_bounded b). lia.
Qed.

Lemma Z_of_byte_of_Z (x : Z) : Z_of_byte (byte_of_Z x) = x mod 256.
Proof.
  pose proof (Z.mod_pos_bound x 256 ltac:(lia)) as Hb.
  unfold Z_of_byte, byte_of_Z.
  destruct (Byte.of_N (Z.to_N (x mod 256))) as [b|] eqn:E.
  - apply Byte.to_of_N in E. rewrite E. apply Z2N.id. lia.
  - apply Byte.of_N_None_iff in E. lia.
Qed.

Lemma le_bytes_length (n : nat) (x : Z) : length (le_bytes n x) = n.
Proof.
  revert x. induction n as [|n IH]; intros x; cbn; [reflexivity|].
  now rewrite IH.
Qed.

Lemma le_int_bound (bs : list byte) :
  0 <= le_int bs < 256 ^ Z.of_nat (length bs).
Proof.
  induction bs as [|b bs IH]; cbn [le_int length].
  - cbn. lia.
  - pose proof (Z_of_byte_bound b).
    rewrite Nat2Z.inj_succ, Z.pow_succ_r by lia. lia.
Qed.

Lemma le_int_le_bytes (n : nat) (x : Z) :
  0 <= x < 256 ^ Z.of_nat n -> le_int (le_bytes n x) = x.
Proof.
  revert x. induction n as [|n IH]; intros x Hx.
  - cbn in *. lia.
  - cbn [le_bytes le_int]. rewrite Z_of_byte_of_Z.
    rewrite Nat2Z.inj_succ, Z.pow_succ_r in Hx by lia.
    rewrite IH.
    + pose proof (Z.div_mod x 256 ltac:(lia)). lia.
    + split; [apply Z.div_pos; lia | apply Z.div_lt_upper_bound; lia].
Qed.

Lemma pack_uint_ok (n : nat) (x : Z) (b : list byte) :
  pack_uint n x = Ok b ->
  b = le_bytes n x /\ 0 <= x < 256 ^ Z.of_nat n.
Proof.
  unfold pack_uint.
  destruct (0 <=? x) eqn:H0; destruct (x <? 256 ^ Z.of_nat n) eqn:H1;
    cbn; try discriminate.
  intros [= <-]. split; [reflexivity | lia].
Qed.

Lemma pack_uint_in_range (n : nat) (x : Z) :
  0 <= x < 256 ^ Z.of_nat n -> pack_uint n x = Ok (le_bytes n x).
Proof.
  intros H. unfold pack_uint.
  assert ((0 <=? x) = true) as -> by lia.
  assert ((x <? 256 ^ Z.of_nat n) = true) as -> by lia.
  reflexivity.
Qed.

Lemma pack_16s_length (b : list byte) : length (pack_16s b) = 16%nat.
Proof.
  unfold pack_16s. rewrite length_app, length_take, length_replicate. lia.
Qed.

Lemma pack_16s_id (b : list byte) : length b = 16%nat -> pack_16s b = b.
Proof.
  intros H. unfold pack_16s. rewrite H. cbn.
  rewrite app_nil_r. apply take_ge. lia.
Qed.

(** What a successful [pack] produced. *)
Lemma pack_ok v0 v1 v2 v3 v4 v5 r :
  pack v0 v1 v2 v3 v4 v5 = Ok r ->
  r = le_bytes 4 v0 ++ le_bytes 4 v1 ++ le_bytes 4 v2 ++ pack_16s v3
      ++ le_bytes 2 v4 ++ le_bytes 4 v5 /\
  0 <= v0 < 2 ^ 32 /\ 0 <= v1 < 2 ^ 32 /\ 0 <= v2 < 2 ^ 32 /\
  0 <= v4 < 2 ^ 16 /\ 0 <= v5 < 2 ^ 32.
Proof.
  unfold pack.
  destruct (pack_uint 4 v0) as [b0|] eqn:E0; [|discriminate].
  destruct (pack_uint 4 v1) as [b1|] eqn:E1; [|discriminate].
  destruct (pack_uint 4 v2) as [b2|] eqn:E2; [|discriminate].
  destruct (pack_uint 2 v4) as [b4|] eqn:E4; [|discriminate].
  destruct (pack_uint 4 v5) as [b5|] eqn:E5; [|discriminate].
  cbn [rbind]. intros [= <-].
  apply pack_uint_ok in E0 as [-> ?], E1 as [-> ?], E2 as [-> ?],
                        E4 as [-> ?], E5 as [-> ?].
  change (256 ^ Z.of_nat 4) with (2 ^ 32) in *.
  change (256 ^ Z.of_nat 2) with (2 ^ 16) in *.
  repeat split; lia.
Qed.

Lemma pack_in_range v0 v1 v2 v3 v4 v5 :
  0 <= v0 < 2 ^ 32 -> 0 <= v1 < 2 ^ 32 -> 0 <= v2 < 2 ^ 32 ->
  0 <= v4 < 2 ^ 16 -> 0 <= v5 < 2 ^ 32 ->
  exists r, pack v0 v1 v2 v3 v4 v5 = Ok r.
Proof.
  intros H0 H1 H2 H4 H5. unfold pack.
  rewrite !pack_uint_in_range by assumption.
  cbn [rbind]. eauto.
Qed.

Lemma pack_length v0 v1 v2 v3 v4 v5 r :
  pack v0 v1 v2 v3 v4 v5 = Ok r -> length r = size.
Proof.
  intros H. apply pack_ok in H as [-> _].
  rewrite !length_app, !le_bytes_length, pack_16s_length. reflexivity.
Qed.

(** Decoding a freshly encoded record gives back the six values (the key
    as padded or cut to 16 bytes). *)
Lemma unpack_pack v0 v1 v2 v3 v4 v5 r :
  pack v0 v1 v2 v3 v4 v5 = Ok r ->
  unpack r = Items v0 v1 v2 (pack_16s v3) v4 v5.
Proof.
  intros H. apply pack_ok in H as (-> & H0 & H1 & H2 & H4 & H5).
  pose proof (le_bytes_length 4 v0) as L0.
  pose proof (le_bytes_length 4 v1) as L1.
  pose proof (le_bytes_length 4 v2) as L2.
  pose proof (pack_16s_length v3) as L3.
  pose proof (le_bytes_length 2 v4) as L4.
  pose proof (le_bytes_length 4 v5) as L5.
  set (b0 := le_bytes 4 v0) in *. set (b1 := le_bytes 4 v1) in *.
  set (b2 := le_bytes 4 v2) in *. set (b3 := pack_16s v3) in *.
  set (b4 := le_bytes 2 v4) in *. set (b5 := le_bytes 4 v5) in *.
  unfold unpack.
  assert (drop 4 (b0 ++ b1 ++ b2 ++ b3 ++ b4 ++ b5) = b1 ++ b2 ++ b3 ++ b4 ++ b5)
    as -> by (apply drop_app_length'; assumption).
  assert (drop 8 (b0 ++ b1 ++ b2 ++ b3 ++ b4 ++ b5) = b2 ++ b3 ++ b4 ++ b5) as ->.
  { rewrite (app_assoc b0). apply drop_app_length'. rewrite length_app. lia. }
  assert (drop 12 (b0 ++ b1 ++ b2 ++ b3 ++ b4 ++ b5) = b3 ++ b4 ++ b5) as ->.
  { rewrite (app_assoc b0), (app_assoc (b0 ++ b1)).
    apply drop_app_length'. rewrite !length_app. lia. }
  assert (drop 28 (b0 ++ b1 ++ b2 ++ b3 ++ b4 ++ b5) = b4 ++ b5) as ->.
  { rewrite (app_assoc b0), (app_assoc (b0 ++ b1)), (app_assoc ((b0 ++ b1) ++ b2)).
    apply drop_app_length'. rewrite !length_app. lia. }
  assert (drop 30 (b0 ++ b1 ++ b2 ++ b3 ++ b4 ++ b5) = b5) as ->.
  { rewrite (app_assoc b0), (app_assoc (b0 ++ b1)), (app_assoc ((b0 ++ b1) ++ b2)),
      (app_assoc (((b0 ++ b1) ++ b2) ++ b3)).
    apply drop_app_length'. rewrite !length_app. lia. }
  rewrite (take_app_length' b0), (take_app_length' b1), (take_app_length' b2),
    (take_app_length' b3), (take_app_length' b4) by (symmetry; assumption).
  rewrite (take_ge b5) by lia.
  subst b0 b1 b2 b4 b5.
  change (2 ^ 32) with (256 ^ Z.of_nat 4) in *.
  change (2 ^ 16) with (256 ^ Z.of_nat 2) in *.
  rewrite !le_int_le_bytes by assumption.
  reflexivity.
Qed.

(** Cutting a buffer of whole records. *)
Lemma chunks_app (n : nat) (buf r : list byte) :
  length buf = (n * size)%nat ->
  chunks (S n) (buf ++ r) = chunks n buf ++ [take size r].
Proof.
  revert buf. induction n as [|n IH]; intros buf Hlen.
  - destruct buf; [|discriminate]. reflexivity.
  - cbn [chunks] in *.
    assert (size <= length buf)%nat as Hge by lia.
    rewrite (take_app_le buf r size) by assumption.
    rewrite (drop_app_le buf r size) by assumption.
    cbn [app]. f_equal.
    apply IH. rewrite length_drop. lia.
Qed.

Lemma chunks_lengths (n : nat) (buf : list byte) :
  length buf = (n * size)%nat ->
  Forall (fun c => length c = size) (chunks n buf).
Proof.
  revert buf. induction n as [|n IH]; intros buf Hlen; cbn [chunks].
  - constructor.
  - constructor.
    + rewrite length_take. lia.
    + apply IH. rewrite length_drop. lia.
Qed.

End Codec.

(** ** Loading the index *)

Section LoadProps.

Import IO VFS Struct.

Lemma records_wf (index : list byte) :
  (length index mod size = 0)%nat ->
  Forall (fun it => length (item3 it) = 16%nat /\ 0 <= item5 it < 2 ^ 32)
         (records index).
Proof.
  intros Hm. unfold records. apply Forall_map.
  apply (Forall_impl _ _ _ (chunks_lengths (length index / size) index
           ltac:(apply Nat.Div0.div_exact in Hm; unfold size in *; lia))).
  intros c Hc. cbn [unpack item3 item5]. split.
  - rewrite length_take, length_drop. unfold size in Hc. lia.
  - pose proof (le_int_bound (take 4 (drop 30 c))) as Hb.
    rewrite length_take, length_drop in Hb. unfold size in Hc.
    replace (4 `min` (length c - 30))%nat with 4%nat in Hb by lia.
    exact Hb.
Qed.

(** Building an entry from a record whose size field fits 32 bits cannot
    fail. *)
Lemma init_of_items (it : items) :
  0 <= item5 it < 2 ^ 32 ->
  Entry.init 0 [] (item0 it) (item5 it) (Some (item1 it)) (Some (item3 it))
             (Some (item2 it)) (item4 it) true
  = Ok (entry_of_items it).
Proof.
  intros H. unfold Entry.init, entry_of_items.
  destruct (item1 it <? item5 it); [|reflexivity].
  rewrite ceil1024_small by lia. reflexivity.
Qed.

Lemma bind_lift_Ok {A B} (a : A) (k : A -> M B) (s : LLVFS) :
  bind (lift (Ok a)) k s = k a s.
Proof. reflexivity. Qed.

Lemma bind_lift_Raise {A B} (e : exn) (k : A -> M B) (s : LLVFS) :
  bind (lift (Raise e)) k s = (Raise e, s).
Proof. reflexivity. Qed.

Lemma UUID_of_bytes_16 (b : list byte) :
  length b = 16%nat -> UUID_of_bytes b = Ok b.
Proof. intros H. unfold UUID_of_bytes. rewrite H. reflexivity. Qed.

Lemma load_entries_ok (l : list items) (s : LLVFS) :
  Forall (fun it => length (item3 it) = 16%nat /\ 0 <= item5 it < 2 ^ 32) l ->
  load_entries l s =
  (Ok tt, mkVFS (mode s) (entries s ++ map entry_of_items l)
                (keymap s ++ map item3 l) (indexFile s) (dataFile s)).
Proof.
  intros Hl. revert s. induction Hl as [|it l [H3 H5] _ IH]; intros s.
  - cbn. rewrite !app_nil_r. destruct s; reflexivity.
  - cbn [load_entries].
    rewrite UUID_of_bytes_16, bind_lift_Ok by assumption.
    rewrite init_of_items, bind_lift_Ok by assumption.
    unfold bind at 1, append_entry at 1. unfold bind at 1, append_key at 1.
    rewrite IH. cbn. rewrite <- !app_assoc. reflexivity.
Qed.

(** [loadIndexFile] on a readable index file: everything is read from the
    start and handed to [iter_unpack]. *)
Lemma loadIndexFile_readable (self : LLVFS) :
  f_mode (indexFile self) = RB ->
  loadIndexFile self =
  bind (lift (iter_unpack (f_bytes (indexFile self)))) load_entries
       (mkVFS (mode self) (entries self) (keymap self)
              (File RB (f_bytes (indexFile self))
                    (0 + IO.len (f_bytes (indexFile self))))
              (dataFile self)).
Proof.
  intros Hm. unfold loadIndexFile.
  unfold bind at 1, on_indexFile at 1. cbn.
  unfold bind at 1, on_indexFile at 1. unfold IO.read. cbn. rewrite Hm.
  reflexivity.
Qed.

Lemma iter_unpack_whole (index : list byte) :
  (length index mod size = 0)%nat -> iter_unpack index = Ok (records index).
Proof.
  intros H. unfold iter_unpack. rewrite H. reflexivity.
Qed.

Lemma iter_unpack_partial (index : list byte) :
  (length index mod size <> 0)%nat -> iter_unpack index = Raise StructError.
Proof.
  intros H. unfold iter_unpack.
  apply Nat.eqb_neq in H. rewrite H. reflexivity.
Qed.

(** Opening two existing files for reading. *)
Lemma init_read_unfold (index data : list byte) :
  VFS.init (Some index) (Some data) "r" =
  match loadIndexFile (mkVFS "r" [] [] (File RB index 0) (File RB data 0)) with
  | (Ok _, self') => Ok self'
  | (Raise e, _) => Raise e
  end.
Proof. reflexivity. Qed.

(** Opening for reading an index made of whole records. *)
Lemma init_read_whole (index data : list byte) :
  (length index mod size = 0)%nat ->
  VFS.init (Some index) (Some data) "r" =
  Ok (mkVFS "r" (map entry_of_items (records index))
            (map item3 (records index))
            (File RB index (0 + IO.len index)) (File RB data 0)).
Proof.
  intros H. rewrite init_read_unfold.
  rewrite loadIndexFile_readable by reflexivity. cbn [indexFile f_bytes].
  rewrite iter_unpack_whole, bind_lift_Ok by assumption.
  rewrite load_entries_ok by (apply records_wf; assumption).
  reflexivity.
Qed.

(** C3: an index whose length is not a multiple of the 34-byte record
    size makes [loadIndexFile] raise [struct.error] with no entry and no
    key added, and makes opening the store for reading fail with that
    error. *)
Theorem partial_record_fails (index : list byte) :
  (length index mod size <> 0)%nat ->
  (forall self,
     f_mode (indexFile self) = RB -> f_bytes (indexFile self) = index ->
     exists self',
       loadIndexFile self = (Raise StructError, self') /\
       entries self' = entries self /\ keymap self' = keymap self) /\
  (forall data, VFS.init (Some index) (Some data) "r" = Raise StructError).
Proof.
  intros H. split.
  - intros self Hmode Hbytes.
    rewrite loadIndexFile_readable by assumption.
    rewrite Hbytes.
    rewrite iter_unpack_partial, bind_lift_Raise by assumption.
    eexists. split; [reflexivity|]. split; reflexivity.
  - intros data. rewrite init_read_unfold.
    rewrite loadIndexFile_readable by reflexivity. cbn [indexFile f_bytes].
    rewrite iter_unpack_partial, bind_lift_Raise by assumption.
    reflexivity.
Qed.

Lemma partial_record_fails_witness :
  VFS.init (Some [x00; x01; x02]) (Some []) "r" = Raise StructError.
Proof.
  apply (proj2 (partial_record_fails [x00; x01; x02] ltac:(vm_compute; discriminate))).
Defined.

(** ** Keyed lookup *)

Lemma UUID_eqb_refl (k : UUID) : UUID_eqb k k = true.
Proof.
  induction k as [|b k IH]; cbn; [reflexivity|].
  rewrite IH, (Byte.byte_dec_lb eq_refl). reflexivity.
Qed.

(** [keymap.index(k)] into [entries] is the first entry whose key equals
    [k], when the two lists are aligned. *)
Lemma key_index_first (k : UUID) (es : list LLVFSEntry) :
  match key_index k (map Entry.key es) with
  | Some i => is_Some (List.find (fun e => UUID_eqb (Entry.key e) k) es) /\
              es !! i = List.find (fun e => UUID_eqb (Entry.key e) k) es
  | None => List.find (fun e => UUID_eqb (Entry.key e) k) es = None
  end.
Proof.
  induction es as [|e es IH]; cbn [map key_index List.find]; [reflexivity|].
  destruct (UUID_eqb (Entry.key e) k).
  - split; [eexists|]; reflexivity.
  - destruct (key_index k (map Entry.key es)); exact IH.
Qed.

Section KeyedLookup.

Variable UUID_of_str : string -> result UUID.

(** On a store whose [keymap] lists the keys of its [entries] in order,
    [fromKey] returns the first entry with the key, or [None]. *)
Lemma fromKey_first (k : UUID) (s : LLVFS) :
  keymap s = map Entry.key (entries s) ->
  fromKey UUID_of_str (KUUID k) s =
  (Ok (List.find (fun e => UUID_eqb (Entry.key e) k) (entries s)), s).
Proof.
  intros Hk. unfold fromKey. cbn [resolve_key].
  rewrite bind_lift_Ok. unfold bind at 1, get at 1. rewrite Hk.
  pose proof (key_index_first k (entries s)) as H.
  destruct (key_index k (map Entry.key (entries s))) as [i|].
  - destruct H as [[e He] Hi]. rewrite Hi, He. reflexivity.
  - rewrite H. reflexivity.
Qed.

(** C4, as stated, fails: with two records under one key, [fromKey]
    returns the entry of the first record (offset 0), not that of the last
    (offset 1024). *)
Lemma fromKey_not_last :
  exists s e1 e2,
    VFS.init (Some two_records) (Some []) "r" = Ok s /\
    VFS.iter s = [e1; e2] /\
    Entry.key e1 = key7 /\ Entry.key e2 = key7 /\
    Entry.offset e1 = 0 /\ Entry.offset e2 = 1024 /\
    fst (fromKey no_str_key (KUUID key7) s) = Ok (Some e1) /\
    fst (fromKey no_str_key (KUUID key7) s) <> Ok (Some e2).
Proof.
  do 3 eexists. split; [vm_compute; reflexivity|].
  split; [reflexivity|].
  repeat split. vm_compute. discriminate.
Qed.

(** C4, amended: opening for reading an index made of whole records
    succeeds; iterating the store yields the entry of every record, in
    file order; and [fromKey(key)] returns the first of the entries that
    bear [key] (or [None] if there is none), leaving the store as it
    was. *)
Theorem fromKey_returns_first (index data : list byte) :
  (length index mod size = 0)%nat ->
  exists s,
    VFS.init (Some index) (Some data) "r" = Ok s /\
    VFS.iter s = map entry_of_items (records index) /\
    forall k,
      fromKey UUID_of_str (KUUID k) s =
      (Ok (List.find (fun e => UUID_eqb (Entry.key e) k) (VFS.iter s)), s).
Proof.
  intros H. eexists. split; [apply init_read_whole; assumption|].
  split; [reflexivity|].
  intros k. apply fromKey_first. cbn [keymap entries].
  rewrite map_map. reflexivity.
Qed.

End KeyedLookup.

Lemma fromKey_returns_first_witness :
  exists s,
    VFS.init (Some two_records) (Some []) "r" = Ok s /\
    VFS.iter s = map entry_of_items (records two_records) /\
    forall k,
      fromKey no_str_key (KUUID k) s =
      (Ok (List.find (fun e => UUID_eqb (Entry.key e) k) (VFS.iter s)), s).
Proof.
  apply (fromKey_returns_first no_str_key two_records []).
  vm_compute. reflexivity.
Defined.

End LoadProps.

(** ** Writing *)

Section WriteProps.

Import IO.

Lemma write_mode (d : list byte) (f : file) :
  f_mode (snd (write d f)) = f_mode f.
Proof.
  unfold write. destruct (f_mode f) eqn:Hm; [assumption | | reflexivity].
  destruct d; [assumption | reflexivity].
Qed.

Lemma write_pos (d : list byte) (f : file) :
  0 <= f_pos f -> 0 <= f_pos (snd (write d f)).
Proof.
  intros H. unfold write. destruct (f_mode f); [assumption | | cbn; unfold IO.len; lia].
  destruct d; [assumption|]. cbn [snd f_pos]. unfold IO.len. lia.
Qed.

(** Writing to a file that is open for writing raises nothing. *)
Lemma write_writable (d : list byte) (f : file) :
  f_mode f <> RB -> write d f = (Ok (IO.len d), snd (write d f)).
Proof.
  intros H. unfold write. destruct (f_mode f); [congruence | | reflexivity].
  destruct d; reflexivity.
Qed.

(** Writing at the end of a file opened with ["wb"] appends. *)
Lemma write_at_end (d : list byte) (f : file) :
  f_mode f = WB -> f_pos f = IO.len (f_bytes f) ->
  f_bytes (snd (write d f)) = f_bytes f ++ d /\
  f_pos (snd (write d f)) = IO.len (f_bytes f ++ d).
Proof.
  intros Hm Hp. unfold write. rewrite Hm.
  destruct d as [|x d].
  - cbn. rewrite app_nil_r. split; [reflexivity | assumption].
  - cbn [snd f_bytes f_pos]. rewrite Hp. unfold IO.len. rewrite Nat2Z.id.
    rewrite take_ge, drop_ge by lia.
    rewrite Nat.sub_diag. cbn [replicate app]. rewrite app_nil_r.
    split; [reflexivity|]. rewrite length_app. lia.
Qed.

(** The bytes just written are found at the position they were written
    at. *)
Lemma written_at (d : list byte) (f : file) :
  f_mode f = WB -> 0 <= f_pos f ->
  take (length d) (drop (Z.to_nat (f_pos f)) (f_bytes (snd (write d f)))) = d /\
  (d <> [] -> f_pos (snd (write d f)) = f_pos f + IO.len d).
Proof.
  intros Hm Hp. unfold write. rewrite Hm.
  destruct d as [|x d]; [split; [reflexivity | congruence]|].
  cbn [snd f_bytes f_pos]. split; [|reflexivity].
  set (p := Z.to_nat (f_pos f)). set (b := f_bytes f).
  rewrite (app_assoc (take p b)).
  rewrite drop_app_length'
    by (rewrite length_app, length_take, length_replicate; lia).
  apply take_app_length.
Qed.

(** A write leaves alone what lies before its position. *)
Lemma write_keeps_before (d : list byte) (f : file) (q : nat) :
  f_mode f = WB ->
  (q <= Z.to_nat (f_pos f))%nat -> (q <= length (f_bytes f))%nat ->
  take q (f_bytes (snd (write d f))) = take q (f_bytes f).
Proof.
  intros Hm Hq Hl. unfold write. rewrite Hm.
  destruct d as [|x d]; [reflexivity|].
  cbn [snd f_bytes].
  rewrite take_app_le by (rewrite length_take; lia).
  rewrite take_take. f_equal. lia.
Qed.

(** The payload survives the padding written after it. *)
Lemma written_then_padded (d pad : list byte) (f : file) (c : bool) :
  f_mode f = WB -> 0 <= f_pos f ->
  take (length d)
       (drop (Z.to_nat (f_pos f))
             (f_bytes (if c then snd (write pad (snd (write d f)))
                       else snd (write d f)))) = d.
Proof.
  intros Hm Hp.
  destruct (written_at d f Hm Hp) as [Hd Hpos].
  destruct c; [|exact Hd].
  destruct d as [|x d]; [reflexivity|].
  specialize (Hpos ltac:(discriminate)).
  set (f1 := snd (write (x :: d) f)) in *.
  set (p := Z.to_nat (f_pos f)) in *.
  assert (p + length (x :: d) <= length (f_bytes f1))%nat as Hlen.
  { apply (f_equal length) in Hd.
    rewrite length_take, length_drop in Hd. cbn [length] in *. lia. }
  rewrite take_drop_commute.
  rewrite write_keeps_before.
  - rewrite <- take_drop_commute. exact Hd.
  - unfold f1. rewrite write_mode. assumption.
  - rewrite Hpos. unfold IO.len, p. lia.
  - exact Hlen.
Qed.

End WriteProps.

(** ** Adding a payload and reading it back *)

Section AddProps.
Import IO VFS Struct.
Variable UUID_of_str : string -> result UUID.

(** The last steps of [add]: resolving the key, packing the record and
    writing it to the index file. *)
Lemma add_record_Ok key offset l t ft n s s' :
  (run k <- lift (resolve_key UUID_of_str key);
   run r <- lift (pack offset l t k ft n);
   exec on_indexFile (write r);
   ret tt) s = (Ok tt, s') ->
  exists k r,
    resolve_key UUID_of_str key = Ok k /\
    pack offset l t k ft n = Ok r /\
    s' = mkVFS (mode s) (entries s) (keymap s)
               (snd (write r (indexFile s))) (dataFile s).
Proof.
  destruct (resolve_key UUID_of_str key) as [k|e] eqn:Hk.
  2:{ rewrite bind_lift_Raise. discriminate. }
  rewrite bind_lift_Ok.
  destruct (pack offset l t k ft n) as [r|e] eqn:Hp.
  2:{ rewrite bind_lift_Raise. discriminate. }
  rewrite bind_lift_Ok.
  unfold bind at 1, on_indexFile at 1.
  destruct (write r (indexFile s)) as [[n3|e] f3] eqn:W3; [|discriminate].
  unfold ret. intros [= <-]. exists k, r. rewrite W3.
  split; [reflexivity|]. split; [assumption | reflexivity].
Qed.

Lemma add_Ok now key ft data atime s s' :
  add UUID_of_str now key ft data atime s = (Ok tt, s') ->
  exists length k r n1 f1,
    PyNum.ceil1024 (IO.len data) = Ok length /\
    resolve_key UUID_of_str key = Ok k /\
    pack (tell (dataFile s)) length (recorded_time now atime) k ft (IO.len data) = Ok r /\
    write data (dataFile s) = (Ok n1, f1) /\
    s' = mkVFS (mode s) (entries s) (keymap s) (snd (write r (indexFile s)))
           (if 0 <? length - IO.len data
            then snd (write (replicate (Z.to_nat (length - IO.len data)) x00) f1)
            else f1).
Proof.
  unfold add. fold (recorded_time now atime).
  destruct (PyNum.ceil1024 (IO.len data)) as [l|e] eqn:Hc.
  2:{ rewrite bind_lift_Raise. discriminate. }
  rewrite bind_lift_Ok. unfold bind at 1, get at 1.
  unfold bind at 1, on_dataFile at 1.
  destruct (write data (dataFile s)) as [[n1|e] f1] eqn:W1; [|discriminate].
  unfold bind at 1.
  destruct (0 <? l - IO.len data) eqn:Hpad.
  - unfold on_dataFile at 1. cbn [dataFile].
    destruct (write _ f1) as [[n2|e] f2] eqn:W2; [|discriminate].
    intros H. apply add_record_Ok in H as (k & r & Hk & Hp & ->).
    exists l, k, r, n1, f1. repeat (split; [reflexivity || assumption|]).
    rewrite Hpad, W2. reflexivity.
  - unfold ret at 1.
    intros H. apply add_record_Ok in H as (k & r & Hk & Hp & ->).
    exists l, k, r, n1, f1. repeat (split; [reflexivity || assumption|]).
    rewrite Hpad. reflexivity.
Qed.
(** Whatever its outcome, [add] leaves the data file in its mode and the
    index file either untouched or extended by one record. *)
Lemma add_record_files key offset l t ft n s res s' :
  (run k <- lift (resolve_key UUID_of_str key);
   run r <- lift (pack offset l t k ft n);
   exec on_indexFile (write r);
   ret tt) s = (res, s') ->
  dataFile s' = dataFile s /\
  (indexFile s' = indexFile s \/
   exists r, length r = size /\ indexFile s' = snd (write r (indexFile s))).
Proof.
  destruct (resolve_key UUID_of_str key) as [k|e] eqn:Hk.
  2:{ rewrite bind_lift_Raise. intros [= _ <-]. auto. }
  rewrite bind_lift_Ok.
  destruct (pack offset l t k ft n) as [r|e] eqn:Hp.
  2:{ rewrite bind_lift_Raise. intros [= _ <-]. auto. }
  rewrite bind_lift_Ok. apply pack_length in Hp.
  unfold bind, on_indexFile, ret.
  destruct (write r (indexFile s)) as [[n3|e] f3] eqn:W3;
    intros [= _ <-]; cbn; (split; [reflexivity|]); right; exists r;
    rewrite W3; auto.
Qed.

Lemma add_files now key ft data atime s res s' :
  add UUID_of_str now key ft data atime s = (res, s') ->
  f_mode (dataFile s') = f_mode (dataFile s) /\
  (0 <= f_pos (dataFile s) -> 0 <= f_pos (dataFile s')) /\
  (indexFile s' = indexFile s \/
   exists r, length r = size /\ indexFile s' = snd (write r (indexFile s))).
Proof.
  unfold add. fold (recorded_time now atime).
  destruct (PyNum.ceil1024 (IO.len data)) as [l|e] eqn:Hc.
  2:{ rewrite bind_lift_Raise. intros [= _ <-]. auto. }
  rewrite bind_lift_Ok. unfold bind at 1, get at 1.
  unfold bind at 1, on_dataFile at 1.
  pose proof (write_mode data (dataFile s)) as M1.
  pose proof (write_pos data (dataFile s)) as P1.
  destruct (write data (dataFile s)) as [[n1|e] f1] eqn:W1; cbn [snd] in M1, P1.
  2:{ intros [= _ <-]. cbn. auto. }
  unfold bind at 1.
  assert (exists r2 f2,
            (if 0 <? l - IO.len data
             then on_dataFile (write (replicate (Z.to_nat (l - IO.len data)) x00))
             else ret 0)
              (mkVFS (mode s) (entries s) (keymap s) (indexFile s) f1)
            = (r2, mkVFS (mode s) (entries s) (keymap s) (indexFile s) f2) /\
            f_mode f2 = f_mode f1 /\
            (0 <= f_pos f1 -> 0 <= f_pos f2)) as (r2 & f2 & -> & M2 & P2).
  { destruct (0 <? l - IO.len data).
    - unfold on_dataFile. cbn [dataFile indexFile mode entries keymap].
      pose proof (write_mode (replicate (Z.to_nat (l - IO.len data)) x00) f1) as M2.
      pose proof (write_pos (replicate (Z.to_nat (l - IO.len data)) x00) f1) as P2.
      destruct (write _ f1) as [r2 f2]. exists r2, f2. auto.
    - exists (Ok 0), f1. auto. }
  destruct r2 as [n2|e].
  2:{ intros [= _ <-]. cbn. split; [congruence | auto]. }
  intros H. apply add_record_files in H as [Hd Hi].
  rewrite Hd. cbn [dataFile indexFile] in *.
  split; [congruence | split; [auto | exact Hi]].
Qed.

Lemma read_files offset sz s :
  indexFile (snd (VFS.read offset sz s)) = indexFile s /\
  f_mode (dataFile (snd (VFS.read offset sz s))) = f_mode (dataFile s) /\
  (0 <= f_pos (dataFile s) -> 0 <= f_pos (dataFile (snd (VFS.read offset sz s)))).
Proof.
  unfold VFS.read, bind, on_dataFile, seek.
  destruct (offset <? 0) eqn:Ho; cbn; [auto|].
  apply Z.ltb_ge in Ho.
  unfold IO.read; cbn. destruct (f_mode (dataFile s)) eqn:Hm; cbn; auto.
  destruct (sz <? -1); cbn; [auto|].
  destruct (sz =? -1); cbn; unfold IO.len;
    (split; [reflexivity | split; [reflexivity | lia]]).
Qed.

Lemma fromKey_store key s : snd (fromKey UUID_of_str key s) = s.
Proof.
  unfold fromKey.
  destruct (resolve_key UUID_of_str key) as [k|e]; [|reflexivity].
  rewrite bind_lift_Ok. unfold bind, get.
  destruct (key_index k (keymap s)) as [i|]; [|reflexivity].
  destruct (entries s !! i); reflexivity.
Qed.

Lemma init_write_store index data s :
  VFS.init index data "w" = Ok s ->
  s = mkVFS "w" [] [] (File WB [] 0) (File WB [] 0).
Proof. intros H. change (Ok (mkVFS "w" [] [] (File WB [] 0) (File WB [] 0)) = Ok s) in H. congruence. Qed.

(** The invariant holds of every store reached in write mode. *)
Lemma reachable_write_inv s : reachable_w UUID_of_str s -> write_inv s.
Proof.
  induction 1 as [index data s Hi | s now key ft d atime _ IH
                 | s offset sz _ IH | s key _ IH].
  - apply init_write_store in Hi as ->. unfold write_inv. cbn.
    repeat split; reflexivity || lia.
  - destruct IH as (Hmi & Hmd & Hpos & Hlen & Hdp).
    destruct (add UUID_of_str now key ft d atime s) as [res s'] eqn:E.
    apply add_files in E as (Hd & Hp' & Hidx). cbn [snd].
    unfold write_inv. rewrite Hd.
    destruct Hidx as [-> | (r & Hr & ->)]; [repeat split; auto|].
    destruct (write_at_end r _ Hmi Hpos) as [Hb Hp].
    rewrite write_mode, Hb, Hp. repeat split; auto.
    rewrite length_app, Hr. rewrite <- Nat.Div0.add_mod_idemp_l, Hlen.
    reflexivity.
  - destruct IH as (Hmi & Hmd & Hpos & Hlen & Hdp).
    destruct (read_files offset sz s) as (Hi & Hd & Hp).
    unfold write_inv. rewrite Hi, Hd. repeat split; auto.
  - rewrite fromKey_store. exact IH.
Qed.

Lemma records_app (index r : list byte) :
  (length index mod size = 0)%nat -> length r = size ->
  records (index ++ r) = records index ++ [unpack r].
Proof.
  intros Hi Hr. unfold records.
  apply Nat.Div0.div_exact in Hi.
  set (n := (length index / size)%nat) in *.
  assert (length (index ++ r) / size = S n)%nat as ->.
  { rewrite length_app, Hr, Hi.
    replace (size * n + size)%nat with (S n * size)%nat by lia.
    apply Nat.div_mul. discriminate. }
  rewrite chunks_app by lia.
  rewrite map_app. cbn [map]. rewrite take_ge by lia. reflexivity.
Qed.

(** C1: when [add(key, filetype, data)] returns on a store reached in
    write mode, opening the resulting index and data files for reading
    succeeds, the entries are those of the index as it was followed by one
    new entry, that entry records the position at which the payload was
    written and the payload's exact size, and [read] at that offset and
    size returns the payload, without the padding. *)
Theorem add_reload_read now key filetype data accesstime s s' :
  reachable_w UUID_of_str s ->
  add UUID_of_str now key filetype data accesstime s = (Ok tt, s') ->
  exists s2 e,
    VFS.init (Some (f_bytes (indexFile s'))) (Some (f_bytes (dataFile s'))) "r"
    = Ok s2 /\
    VFS.iter s2
    = map entry_of_items (records (f_bytes (indexFile s))) ++ [e] /\
    Entry.offset e = tell (dataFile s) /\
    Entry.size e = IO.len data /\
    Entry.filetype e = filetype /\
    fst (VFS.read (Entry.offset e) (Entry.size e) s2) = Ok data.
Proof.
  intros Hreach Hadd.
  apply reachable_write_inv in Hreach as (Hmi & Hmd & Hpos & Hlen & _).
  apply add_Ok in Hadd as (l & k & r & n1 & f1 & Hc & Hk & Hp & W1 & ->).
  cbn [indexFile dataFile].
  pose proof (pack_length _ _ _ _ _ _ _ Hp) as Hr.
  pose proof (unpack_pack _ _ _ _ _ _ _ Hp) as Hu.
  apply pack_ok in Hp as (_ & Hoff & _ & _ & _ & Hsz).
  destruct (write_at_end r _ Hmi Hpos) as [Hb _]. rewrite Hb.
  assert (length (f_bytes (indexFile s) ++ r) mod size = 0)%nat as Hlen'.
  { rewrite length_app, Hr, <- Nat.Div0.add_mod_idemp_l, Hlen. reflexivity. }
  rewrite init_read_whole by assumption.
  rewrite records_app by assumption. rewrite map_app. cbn [map].
  do 2 eexists. split; [reflexivity|]. split; [reflexivity|].
  rewrite Hu. cbn [entry_of_items Entry.offset Entry.size Entry._size
                   Entry.filetype item0 item5 item4].
  split; [reflexivity|]. split; [reflexivity|]. split; [reflexivity|].
  rewrite read_readable;
    [| reflexivity | unfold tell in *; lia | unfold IO.len; lia]. cbn [dataFile f_bytes]. f_equal.
  unfold IO.len. rewrite Nat2Z.id. unfold tell.
  replace f1 with (snd (write data (dataFile s))) by (rewrite W1; reflexivity).
  apply written_then_padded; [assumption | unfold tell in Hoff; lia].
Qed.

(** [add] returns when the payload, padded, and the write position fit 32
    bits, the type code fits 16 bits, the access time fits 32 bits and the
    key is a [UUID] or a string that denotes one. *)
Lemma add_returns now key filetype data accesstime s k :
  reachable_w UUID_of_str s ->
  resolve_key UUID_of_str key = Ok k ->
  IO.len data <= 2 ^ 32 - 1024 ->
  tell (dataFile s) < 2 ^ 32 ->
  0 <= filetype < 2 ^ 16 ->
  0 <= recorded_time now accesstime < 2 ^ 32 ->
  exists s', add UUID_of_str now key filetype data accesstime s = (Ok tt, s').
Proof.
  intros Hreach Hk Hd Ho Hf Ht.
  apply reachable_write_inv in Hreach as (Hmi & Hmd & Hpos & Hlen & Hdp).
  assert (0 <= IO.len data) as Hd0 by (unfold IO.len; lia).
  assert (2 ^ 32 < 2 ^ 53) as Hpow by (apply Z.pow_lt_mono_r; lia).
  pose proof (ceil1024_small (IO.len data) ltac:(lia)) as Hc.
  destruct (ceil1024_spec (IO.len data) _ ltac:(lia) Hc) as [_ Hl].
  set (l := 1024 * ((IO.len data + 1023) / 1024)) in *.
  destruct (pack_in_range (tell (dataFile s)) l (recorded_time now accesstime)
              k filetype (IO.len data)) as [r Hp];
    [unfold tell in *; lia | lia | lia | lia | lia |].
  unfold add. fold (recorded_time now accesstime).
  rewrite Hc, bind_lift_Ok. unfold bind at 1, get at 1.
  unfold bind at 1, on_dataFile at 1.
  rewrite (write_writable data) by congruence.
  unfold bind at 1.
  assert (exists f2,
            (if 0 <? l - IO.len data
             then on_dataFile (write (replicate (Z.to_nat (l - IO.len data)) x00))
             else ret 0)
              (mkVFS (mode s) (entries s) (keymap s) (indexFile s)
                     (snd (write data (dataFile s))))
            = (Ok (if 0 <? l - IO.len data
                   then IO.len (replicate (Z.to_nat (l - IO.len data)) x00)
                   else 0),
               mkVFS (mode s) (entries s) (keymap s) (indexFile s) f2))
    as (f2 & ->).
  { destruct (0 <? l - IO.len data).
    - unfold on_dataFile. cbn [dataFile indexFile mode entries keymap].
      rewrite write_writable by (rewrite write_mode; congruence).
      eexists. reflexivity.
    - eexists. reflexivity. }
  rewrite Hk, bind_lift_Ok, Hp, bind_lift_Ok.
  unfold bind, on_indexFile, ret. cbn [indexFile].
  rewrite (write_writable r) by congruence.
  eexists. reflexivity.
Qed.

End AddProps.

Lemma add_reload_read_witness :
  exists s2 e,
    VFS.init (Some (IO.f_bytes (VFS.indexFile hi_added)))
             (Some (IO.f_bytes (VFS.dataFile hi_added))) "r" = Ok s2 /\
    VFS.iter s2
    = map entry_of_items (records (IO.f_bytes (VFS.indexFile fresh_store)))
      ++ [e] /\
    Entry.offset e = IO.tell (VFS.dataFile fresh_store) /\
    Entry.size e = IO.len [x68; x69] /\
    Entry.filetype e = 18 /\
    fst (VFS.read (Entry.offset e) (Entry.size e) s2) = Ok [x68; x69].
Proof.
  apply (add_reload_read no_str_key 7 (VFS.KUUID key7) 18 [x68; x69] (Some 5)
           fresh_store hi_added).
  - apply (reach_open no_str_key None None). reflexivity.
  - vm_compute. reflexivity.
Defined.

(** * Further properties of the code *)

(** ** Extension lookup *)

Section ExtensionLookup.

Import AT.

Lemma dict_get_In {V} (k : Z) (v : V) (d : list (Z * V)) :
  dict_get k d = Some v -> In (k, v) d.
Proof.
  induction d as [|[k' v'] d IH]; cbn [dict_get]; [discriminate|].
  destruct (Z.eqb_spec k k') as [->|_].
  - intros [= ->]. left. reflexivity.
  - intros H. right. exact (IH H).
Qed.

(** The scan of [fromFileExtension] over any table: the first row whose
    type name is [v]. *)
Lemma scan_first (v : string) (d : list (Z * row)) :
  match
    (fix scan (d : list (Z * row)) : option Z :=
       match d with
       | [] => None
       | (at_, r) :: d' =>
           if String.eqb (r_typename r) v then Some at_ else scan d'
       end) d
  with
  | Some c => exists r, In (c, r) d /\ r_typename r = v
  | None => forall c r, In (c, r) d -> r_typename r <> v
  end.
Proof.
  induction d as [|[c r] d IH].
  - intros c r [].
  - destruct (String.eqb_spec (r_typename r) v) as [E|E].
    + exists r. split; [left; reflexivity | exact E].
    + destruct ((fix scan (d : list (Z * row)) : option Z := _) d) as [c'|].
      * destruct IH as (r' & Hin & Hr'). exists r'. split; [right|]; assumption.
      * intros c' r' [[= <- <-]|Hin]; [exact E | exact (IH c' r' Hin)].
Qed.

Lemma asset_types_keys_distinct :
  Forall (fun cr => dict_get (fst cr) asset_types = Some (snd cr)) asset_types.
Proof. repeat constructor. Qed.

Lemma asset_types_typenames_distinct :
  Forall (fun cr => fromFileExtension (r_typename (snd cr)) = Some (fst cr))
         asset_types.
Proof. repeat constructor. Qed.

(** X1: the code that [fromFileExtension(v)] returns is registered, and
    with the type name [v]; when it returns [None], no row of the table
    has that type name. *)
Theorem fromFileExtension_sound (v : string) :
  match fromFileExtension v with
  | Some c => exists r, dict_get c asset_types = Some r /\ r_typename r = v
  | None => forall c r, dict_get c asset_types = Some r -> r_typename r <> v
  end.
Proof.
  unfold fromFileExtension.
  pose proof (scan_first v asset_types) as H.
  destruct ((fix scan (d : list (Z * row)) : option Z := _) asset_types) as [c|].
  - destruct H as (r & Hin & Hr). exists r. split; [|exact Hr].
    pose proof asset_types_keys_distinct as Hk.
    rewrite Forall_forall in Hk. exact (Hk (c, r) ltac:(apply list_elem_of_In; exact Hin)).
  - intros c r Hg. apply (H c r). apply dict_get_In. exact Hg.
Qed.

Lemma fromFileExtension_sound_witness :
  (exists r, dict_get 19 asset_types = Some r /\ r_typename r = "jpeg"%string) /\
  (forall c r, dict_get c asset_types = Some r -> r_typename r <> "tga"%string).
Proof.
  split.
  - exact (fromFileExtension_sound "jpeg").
  - exact (fromFileExtension_sound "tga").
Defined.

(** X2: the type names of the table are pairwise distinct: from the type
    name of any registered code, [fromFileExtension] gives back that
    code. *)
Theorem fromFileExtension_of_typename (c : Z) (r : row) :
  dict_get c asset_types = Some r ->
  fromFileExtension (r_typename r) = Some c.
Proof.
  intros H. apply dict_get_In in H.
  pose proof asset_types_typenames_distinct as Ht.
  rewrite Forall_forall in Ht.
  exact (Ht (c, r) ltac:(apply list_elem_of_In; exact H)).
Qed.

Lemma fromFileExtension_of_typename_witness :
  fromFileExtension "img_tga" = Some 18.
Proof.
  apply (fromFileExtension_of_typename 18
           (Row "IMAGE_TGA" "img_tga" (Some "targa image") true false false)).
  reflexivity.
Defined.

End ExtensionLookup.

(** ** Entries: the stored length *)

Section StoredLength.

Import Entry.

Lemma truediv1024_small (v : Z) :
  Z.abs v < 2 ^ 53 -> PyNum.truediv1024 v = Ok v.
Proof.
  intros H. unfold PyNum.truediv1024. rewrite round53_small by assumption.
  assert ((2 ^ 1034 <=? Z.abs v) = false) as ->; [|reflexivity].
  apply Z.leb_gt.
  assert (2 ^ 53 < 2 ^ 1034) by (apply Z.pow_lt_mono_r; lia). lia.
Qed.

(** [round] picks a nearest integer. *)
Lemma round_nearest (n : Z) : Z.abs (1024 * PyNum.round n - n) <= 512.
Proof.
  unfold PyNum.round.
  pose proof (Z.div_mod n 1024 ltac:(lia)).
  pose proof (Z.mod_pos_bound n 1024 ltac:(lia)).
  destruct (n mod 1024 <? 512) eqn:H1; [lia|].
  destruct (512 <? n mod 1024) eqn:H2; [lia|].
  destruct (Z.even (n / 1024)); lia.
Qed.

Lemma round1024_small (v : Z) :
  Z.abs v < 2 ^ 53 -> PyNum.round1024 v = Ok (1024 * PyNum.round v).
Proof.
  intros H. unfold PyNum.round1024. rewrite truediv1024_small by assumption.
  reflexivity.
Qed.

(** X3: an entry created without a length stores the least multiple of
    1024 that is not below its size. *)
Theorem init_rounds_size_up now (rnd : list byte) off sz k t ft vfs :
  0 <= sz < 2 ^ 53 -> Datatypes.length rnd = 16%nat ->
  exists e,
    init now rnd off sz None k t ft vfs = Ok e /\
    offset e = off /\ _size e = sz /\
    _length e mod 1024 = 0 /\ sz <= _length e < sz + 1024.
Proof.
  intros Hsz Hrnd. unfold init.
  rewrite ceil1024_small by assumption.
  pose proof (ceil1024_spec sz _ Hsz (ceil1024_small sz Hsz)) as [Hm Hb].
  cbn [rbind].
  assert (exists k', match k with
                     | Some k0 => Ok k0
                     | None => UUID_of_bytes rnd
                     end = Ok k') as [k' ->].
  { destruct k as [k0|]; [eauto|]. unfold UUID_of_bytes. rewrite Hrnd. eauto. }
  cbn [rbind]. eexists. split; [reflexivity|]. cbn. auto.
Qed.

Lemma init_rounds_size_up_witness :
  exists e,
    init 0 (replicate 16 x00) 7 1025 None None None 0 false = Ok e /\
    offset e = 7 /\ _size e = 1025 /\
    _length e mod 1024 = 0 /\ 1025 <= _length e < 1025 + 1024.
Proof.
  apply (init_rounds_size_up 0 (replicate 16 x00) 7 1025 None None 0 false);
    [lia | reflexivity].
Defined.

(** X4: assigning to [length] always leaves a stored length that is a
    multiple of 1024 and covers the size; nothing else changes. *)
Theorem set_length_restores_invariant (e : LLVFSEntry) (v : Z) :
  0 <= _size e < 2 ^ 53 -> Z.abs v < 2 ^ 53 ->
  exists l,
    set_length e v =
    Ok (mkEntry (offset e) (_size e) l (key e) (accesstime e) (filetype e)
                (VFS e)) /\
    l mod 1024 = 0 /\ _size e <= l.
Proof.
  intros Hs Hv. unfold set_length.
  assert (exists v', (if negb (v mod 1024 =? 0) then PyNum.round1024 v else Ok v)
                     = Ok v' /\ v' mod 1024 = 0) as (v' & -> & Hv').
  { destruct (Z.eqb_spec (v mod 1024) 0) as [E|E]; cbn [negb].
    - eauto.
    - rewrite round1024_small by assumption. eexists. split; [reflexivity|].
      rewrite Z.mul_comm. apply Z.mod_mul. lia. }
  cbn [rbind]. destruct (Z.ltb_spec v' (_size e)) as [Hlt|Hge].
  - rewrite ceil1024_small by assumption.
    pose proof (ceil1024_spec _ _ Hs (ceil1024_small _ Hs)) as [Hm Hb].
    cbn [rbind]. eexists. split; [reflexivity|]. split; [exact Hm | lia].
  - cbn [rbind]. eexists. split; [reflexivity|]. split; assumption.
Qed.

Lemma set_length_restores_invariant_witness :
  exists l,
    set_length entry5 3 =
    Ok (mkEntry 0 5 l (replicate 16 x00) 0 0 false) /\
    l mod 1024 = 0 /\ 5 <= l.
Proof.
  apply (set_length_restores_invariant entry5 3);
    [vm_compute; split; [discriminate | reflexivity] | vm_compute; reflexivity].
Defined.

(** X5: the value assigned to [length] is first moved to a nearest
    multiple of 1024 (at most 512 away; a multiple is kept); that multiple
    is stored when it covers the size, and otherwise the size rounded up
    to a multiple of 1024 is stored. *)
Theorem set_length_nearest_multiple (e e' : LLVFSEntry) (v : Z) :
  0 <= _size e < 2 ^ 53 -> Z.abs v < 2 ^ 53 ->
  set_length e v = Ok e' ->
  exists m,
    m mod 1024 = 0 /\ Z.abs (m - v) <= 512 /\
    (v mod 1024 = 0 -> m = v) /\
    _length e' =
      (if m <? _size e then 1024 * ((_size e + 1023) / 1024) else m).
Proof.
  intros Hs Hv. unfold set_length.
  destruct (Z.eqb_spec (v mod 1024) 0) as [E|E]; cbn [negb rbind].
  - destruct (v <? _size e) eqn:Hlt.
    + rewrite ceil1024_small by assumption. cbn [rbind]. intros [= <-].
      exists v. rewrite Hlt. cbn. repeat split; auto; lia.
    + cbn [rbind]. intros [= <-].
      exists v. rewrite Hlt. cbn. repeat split; auto; lia.
  - rewrite round1024_small by assumption. cbn [rbind].
    pose proof (round_nearest v) as Hn.
    assert ((1024 * PyNum.round v) mod 1024 = 0) as Hm
      by (rewrite Z.mul_comm; apply Z.mod_mul; lia).
    destruct (1024 * PyNum.round v <? _size e) eqn:Hlt.
    + rewrite ceil1024_small by assumption. cbn [rbind]. intros [= <-].
      exists (1024 * PyNum.round v). rewrite Hlt. cbn.
      repeat split; auto; contradiction.
    + cbn [rbind]. intros [= <-].
      exists (1024 * PyNum.round v). rewrite Hlt. cbn.
      repeat split; auto; contradiction.
Qed.

Lemma set_length_nearest_multiple_witness :
  exists m,
    m mod 1024 = 0 /\ Z.abs (m - 1536) <= 512 /\
    (1536 mod 1024 = 0 -> m = 1536) /\
    _length (mkEntry 0 5 2048 (replicate 16 x00) 0 0 false) =
      (if m <? _size entry5 then 1024 * ((_size entry5 + 1023) / 1024) else m).
Proof.
  apply (set_length_nearest_multiple entry5
           (mkEntry 0 5 2048 (replicate 16 x00) 0 0 false) 1536);
    [vm_compute; split; [discriminate | reflexivity]
    | vm_compute; reflexivity
    | reflexivity].
Defined.

(** X6: assigning a size keeps the stored length a multiple of 1024 when
    it was one, and makes it cover the new size. *)
Theorem set_size_keeps_block_multiple (e : LLVFSEntry) (v : Z) :
  _length e mod 1024 = 0 -> 0 <= v < 2 ^ 53 ->
  exists l,
    set_size e v =
    Ok (mkEntry (offset e) v l (key e) (accesstime e) (filetype e) (VFS e)) /\
    l mod 1024 = 0 /\ v <= l /\ (l = _length e \/ l < v + 1024).
Proof.
  intros Hm Hv. unfold set_size.
  destruct (Z.ltb_spec (_length e) v) as [Hlt|Hge].
  - rewrite ceil1024_small by assumption.
    pose proof (ceil1024_spec _ _ Hv (ceil1024_small _ Hv)) as [Hm' Hb].
    cbn [rbind]. eexists. split; [reflexivity|]. repeat split; auto; lia.
  - cbn [rbind]. eexists. split; [reflexivity|]. repeat split; auto.
Qed.

Lemma set_size_keeps_block_multiple_witness :
  exists l,
    set_size entry5 3000 =
    Ok (mkEntry 0 3000 l (replicate 16 x00) 0 0 false) /\
    l mod 1024 = 0 /\ 3000 <= l /\ (l = _length entry5 \/ l < 3000 + 1024).
Proof.
  apply (set_size_keeps_block_multiple entry5 3000); [reflexivity | lia].
Defined.

End StoredLength.

(** ** The record codec, both ways *)

Section CodecRoundTrips.

Import Struct.

Lemma byte_of_Z_of_byte (b : byte) (z : Z) :
  byte_of_Z (Z_of_byte b + 256 * z) = b.
Proof.
  pose proof (Z_of_byte_bound b) as Hb.
  unfold byte_of_Z.
  replace ((Z_of_byte b + 256 * z) mod 256) with (Z_of_byte b).
  - unfold Z_of_byte. rewrite N2Z.id, Byte.of_to_N. reflexivity.
  - apply (Z.mod_unique_pos _ 256 z); lia.
Qed.

Lemma le_bytes_le_int (bs : list byte) :
  le_bytes (length bs) (le_int bs) = bs.
Proof.
  induction bs as [|b bs IH]; [reflexivity|].
  cbn [length le_int le_bytes]. rewrite byte_of_Z_of_byte. f_equal.
  pose proof (Z_of_byte_bound b) as Hb.
  replace ((Z_of_byte b + 256 * le_int bs) / 256) with (le_int bs); [exact IH|].
  apply (Z.div_unique_pos _ 256 _ (Z_of_byte b)); lia.
Qed.

Lemma pack_uint_le_int (n : nat) (bs : list byte) :
  length bs = n -> pack_uint n (le_int bs) = Ok bs.
Proof.
  intros <-. rewrite pack_uint_in_range by apply le_int_bound.
  rewrite le_bytes_le_int. reflexivity.
Qed.

(** X7: [pack] returns exactly when the three leading integers and the
    size fit 32 bits and the type code fits 16 bits; what it returns has 34
    bytes; the only exception it raises is [struct.error]. *)
Theorem pack_returns_iff v0 v1 v2 v3 v4 v5 :
  ((exists r, pack v0 v1 v2 v3 v4 v5 = Ok r) <->
   (0 <= v0 < 2 ^ 32 /\ 0 <= v1 < 2 ^ 32 /\ 0 <= v2 < 2 ^ 32 /\
    0 <= v4 < 2 ^ 16 /\ 0 <= v5 < 2 ^ 32)) /\
  (forall r, pack v0 v1 v2 v3 v4 v5 = Ok r -> length r = 34%nat) /\
  (forall e, pack v0 v1 v2 v3 v4 v5 = Raise e -> e = StructError).
Proof.
  split; [split|split].
  - intros [r H]. apply pack_ok in H. tauto.
  - intros (H0 & H1 & H2 & H4 & H5). apply pack_in_range; assumption.
  - intros r H. exact (pack_length _ _ _ _ _ _ _ H).
  - intros e. unfold pack, pack_uint.
    repeat match goal with
           | |- context [if ?c then _ else _] => destruct c; cbn [rbind]
           end; congruence.
Qed.

Lemma pack_returns_iff_witness :
  length (le_bytes 4 0 ++ le_bytes 4 1024 ++ le_bytes 4 5 ++ pack_16s key7
          ++ le_bytes 2 18 ++ le_bytes 4 2) = 34%nat /\
  StructError = StructError.
Proof.
  split.
  - apply (proj1 (proj2 (pack_returns_iff 0 1024 5 key7 18 2))). reflexivity.
  - apply (proj2 (proj2 (pack_returns_iff 0 1024 5 key7 (-2) 2))). reflexivity.
Defined.

Lemma records_cons (r rest : list byte) :
  length r = size -> (length rest mod size = 0)%nat ->
  records (r ++ rest) = unpack r :: records rest.
Proof.
  intros Hr Hrest. unfold records.
  apply Nat.Div0.div_exact in Hrest.
  assert (length (r ++ rest) / size = S (length rest / size))%nat as ->.
  { rewrite length_app, Hr.
    replace (size + length rest)%nat with (1 * size + length rest)%nat by lia.
    rewrite Nat.div_add_l by discriminate. reflexivity. }
  cbn [chunks map].
  rewrite take_app_length', drop_app_length' by (symmetry; exact Hr) || exact Hr.
  reflexivity.
Qed.

(** X8: decoding the concatenation of packed records gives back, in
    order, the tuples that were packed. *)
Theorem iter_unpack_of_packed (ts : list items) (rs : list (list byte)) :
  Forall2 (fun t r =>
             pack (item0 t) (item1 t) (item2 t) (item3 t) (item4 t) (item5 t)
             = Ok r /\ length (item3 t) = 16%nat) ts rs ->
  iter_unpack (concat rs) = Ok ts.
Proof.
  intros H.
  assert ((length (concat rs) mod size = 0)%nat /\ records (concat rs) = ts)
    as [Hm Hr].
  { induction H as [|t r ts rs [Hp H16] _ [IHm IHr]]; [split; reflexivity|].
    pose proof (pack_length _ _ _ _ _ _ _ Hp) as Hlen.
    pose proof (unpack_pack _ _ _ _ _ _ _ Hp) as Hu.
    rewrite pack_16s_id in Hu by assumption.
    cbn [concat]. split.
    - rewrite length_app, Hlen, <- Nat.Div0.add_mod_idemp_r, IHm. reflexivity.
    - rewrite records_cons, Hu, IHr by assumption. destruct t; reflexivity. }
  rewrite iter_unpack_whole by assumption. rewrite Hr. reflexivity.
Qed.

Lemma iter_unpack_of_packed_witness :
  iter_unpack (concat [le_bytes 4 0 ++ le_bytes 4 1024 ++ le_bytes 4 5
                       ++ pack_16s key7 ++ le_bytes 2 18 ++ le_bytes 4 2])
  = Ok [Items 0 1024 5 key7 18 2].
Proof.
  apply (iter_unpack_of_packed [Items 0 1024 5 key7 18 2]).
  repeat constructor.
Defined.

(** X9: every buffer of 34 bytes is the encoding of the tuple it decodes
    to. *)
Theorem pack_of_unpacked (r : list byte) :
  length r = 34%nat ->
  pack (item0 (unpack r)) (item1 (unpack r)) (item2 (unpack r))
       (item3 (unpack r)) (item4 (unpack r)) (item5 (unpack r)) = Ok r.
Proof.
  intros Hr. unfold unpack, pack. cbn [item0 item1 item2 item3 item4 item5].
  rewrite !pack_uint_le_int by (rewrite length_take, ?length_drop; lia).
  cbn [rbind]. rewrite pack_16s_id by (rewrite length_take, length_drop; lia).
  f_equal.
  do 34 (destruct r as [|? r]; [discriminate Hr|]).
  destruct r; [reflexivity | discriminate Hr].
Qed.

Lemma pack_of_unpacked_witness :
  pack (item0 (unpack (replicate 34 x01))) (item1 (unpack (replicate 34 x01)))
       (item2 (unpack (replicate 34 x01))) (item3 (unpack (replicate 34 x01)))
       (item4 (unpack (replicate 34 x01))) (item5 (unpack (replicate 34 x01)))
  = Ok (replicate 34 x01).
Proof. apply (pack_of_unpacked (replicate 34 x01)). reflexivity. Defined.

End CodecRoundTrips.

(** ** Opening a store *)

Section Opening.

Import IO VFS Struct.

Lemma app_b_inv (mode : string) (c : Ascii.ascii) :
  (mode ++ "b")%string = String c "b" -> mode = String c "".
Proof.
  destruct mode as [|c' m]; cbn; [discriminate|].
  intros [= -> H]. f_equal.
  destruct m as [|c2 m]; [reflexivity|].
  cbn in H. injection H as _ H. destruct m; discriminate.
Qed.

Lemma open_mode_ok (existing : option (list byte)) (mode : string) (f : file) :
  open existing (mode ++ "b") = Ok f ->
  mode = "r"%string \/ mode = "w"%string \/ mode = "a"%string.
Proof.
  unfold open.
  destruct (String.eqb_spec (mode ++ "b") "rb") as [E|_];
    [left; exact (app_b_inv _ _ E)|].
  destruct (String.eqb_spec (mode ++ "b") "wb") as [E|_];
    [right; left; exact (app_b_inv _ _ E)|].
  destruct (String.eqb_spec (mode ++ "b") "ab") as [E|_];
    [right; right; exact (app_b_inv _ _ E)|].
  discriminate.
Qed.

Lemma open_bad_mode (existing : option (list byte)) (mode : string) :
  mode <> "r"%string -> mode <> "w"%string -> mode <> "a"%string ->
  open existing (mode ++ "b") = Raise ValueError.
Proof.
  intros Hr Hw Ha. unfold open.
  destruct (String.eqb_spec (mode ++ "b") "rb") as [E|_];
    [destruct (Hr (app_b_inv _ _ E))|].
  destruct (String.eqb_spec (mode ++ "b") "wb") as [E|_];
    [destruct (Hw (app_b_inv _ _ E))|].
  destruct (String.eqb_spec (mode ++ "b") "ab") as [E|_];
    [destruct (Ha (app_b_inv _ _ E))|].
  reflexivity.
Qed.

Lemma init_mode_ok index data mode s :
  VFS.init index data mode = Ok s ->
  mode = "r"%string \/ mode = "w"%string \/ mode = "a"%string.
Proof.
  unfold VFS.init.
  destruct (negb _); [discriminate|].
  destruct (open index (mode ++ "b")) as [fi|e] eqn:Hi; [|discriminate].
  intros _. exact (open_mode_ok _ _ _ Hi).
Qed.

Lemma init_read_partial (index data : list byte) :
  (length index mod size <> 0)%nat ->
  VFS.init (Some index) (Some data) "r" = Raise StructError.
Proof.
  intros H. rewrite init_read_unfold.
  rewrite loadIndexFile_readable by reflexivity. cbn [indexFile f_bytes].
  rewrite iter_unpack_partial, bind_lift_Raise by assumption.
  reflexivity.
Qed.

Lemma init_append_raises index data :
  VFS.init index data "a" = Raise UnsupportedOperation.
Proof. destruct index, data; reflexivity. Qed.

(** X10: a store is constructed exactly when the mode is ["w"], or the
    mode is ["r"], both files exist and the index file is made of whole
    records.  In particular no store is ever constructed in mode ["a"]. *)
Theorem init_returns_iff (index data : option (list byte)) (mode : string) :
  (exists s, VFS.init index data mode = Ok s) <->
  (mode = "w"%string \/
   (mode = "r"%string /\
    exists i d, index = Some i /\ data = Some d /\
                (length i mod size = 0)%nat)).
Proof.
  split.
  - intros [s Hs].
    destruct (init_mode_ok _ _ _ _ Hs) as [-> | [-> | ->]].
    + right. split; [reflexivity|].
      destruct index as [i|]; [|discriminate].
      destruct data as [d|]; [|discriminate].
      exists i, d. split; [reflexivity|]. split; [reflexivity|].
      destruct (Nat.eq_dec (length i mod size)%nat 0%nat) as [E|E]; [exact E|].
      rewrite (init_read_partial i d E) in Hs. discriminate.
    + left. reflexivity.
    + rewrite init_append_raises in Hs. discriminate.
  - intros [-> | (-> & i & d & -> & -> & Hm)].
    + eexists. reflexivity.
    + eexists. apply init_read_whole. exact Hm.
Qed.

(** X11: how construction fails: mode ["a"] raises
    [io.UnsupportedOperation] (the index file, opened with ["ab"], cannot
    be read); mode ["r"] with a missing file raises [FileNotFoundError];
    any mode other than ["r"], ["w"] and ["a"] raises [ValueError]. *)
Theorem init_failures (index data : option (list byte)) (mode : string) :
  VFS.init index data "a" = Raise UnsupportedOperation /\
  (index = None \/ data = None ->
   VFS.init index data "r" = Raise FileNotFoundError) /\
  (mode <> "r"%string -> mode <> "w"%string -> mode <> "a"%string ->
   VFS.init index data mode = Raise ValueError).
Proof.
  split; [apply init_append_raises|]. split.
  - intros [-> | ->]; [reflexivity|]. destruct index; reflexivity.
  - intros Hr Hw Ha. unfold VFS.init.
    destruct (negb _); [reflexivity|].
    rewrite open_bad_mode by assumption. reflexivity.
Qed.

Lemma init_returns_iff_witness :
  exists s, VFS.init (Some [x01]) None "w" = Ok s.
Proof.
  apply (proj2 (init_returns_iff (Some [x01]) None "w")).
  left. reflexivity.
Defined.

Lemma init_failures_witness :
  VFS.init None (Some []) "r" = Raise FileNotFoundError /\
  VFS.init (Some []) (Some []) "rw" = Raise ValueError.
Proof.
  split.
  - apply (proj1 (proj2 (init_failures None (Some []) "w"))).
    left. reflexivity.
  - apply (proj2 (proj2 (init_failures (Some []) (Some []) "rw")));
      discriminate.
Defined.

End Opening.

(** ** What the methods leave alone *)

Section Frames.

Import IO VFS Struct.

Variable UUID_of_str : string -> result UUID.

Lemma keeps_ret {A} (a : A) : keeps_memory (ret a).
Proof. intros s r s' [= _ <-]. auto. Qed.

Lemma keeps_lift {A} (x : result A) : keeps_memory (lift x).
Proof. intros s r s' [= _ <-]. auto. Qed.

Lemma keeps_get : keeps_memory get.
Proof. intros s r s' [= _ <-]. auto. Qed.

Lemma keeps_on_dataFile {A} (op : file -> result A * file) :
  keeps_memory (on_dataFile op).
Proof.
  intros s r s'. unfold on_dataFile. destruct (op (dataFile s)).
  intros [= _ <-]. auto.
Qed.

Lemma keeps_on_indexFile {A} (op : file -> result A * file) :
  keeps_memory (on_indexFile op).
Proof.
  intros s r s'. unfold on_indexFile. destruct (op (indexFile s)).
  intros [= _ <-]. auto.
Qed.

Lemma keeps_bind {A B} (m : M A) (k : A -> M B) :
  keeps_memory m -> (forall a, keeps_memory (k a)) -> keeps_memory (bind m k).
Proof.
  intros Hm Hk s r s'. unfold bind.
  destruct (m s) as [[a|e] s1] eqn:E1; specialize (Hm _ _ _ E1).
  - intros E2. specialize (Hk a _ _ _ E2).
    destruct Hm as (Hm1 & Hm2 & Hm3), Hk as (Hk1 & Hk2 & Hk3).
    repeat split; congruence.
  - intros [= _ <-]. exact Hm.
Qed.

Lemma add_keeps now key ft data atime :
  keeps_memory (add UUID_of_str now key ft data atime).
Proof.
  unfold add.
  repeat first
    [ apply keeps_bind; [|intros ?]
    | apply keeps_lift | apply keeps_get | apply keeps_ret
    | apply keeps_on_dataFile | apply keeps_on_indexFile
    | match goal with
      | |- keeps_memory (if ?c then _ else _) => destruct c
      end ].
Qed.

Lemma read_keeps offset sz : keeps_memory (VFS.read offset sz).
Proof.
  unfold VFS.read. apply keeps_bind; [|intros ?]; apply keeps_on_dataFile.
Qed.

(** X12: [add], [read] and [fromKey] never change the entries, the keys or
    the mode of the store, whether they return or raise: a record added
    with [add] is not among the entries of the store that added it. *)
Theorem methods_keep_entries (s : LLVFS) now key ft data atime offset sz :
  let after_add := snd (add UUID_of_str now key ft data atime s) in
  let after_read := snd (VFS.read offset sz s) in
  (VFS.iter after_add = VFS.iter s /\ keymap after_add = keymap s /\
   mode after_add = mode s) /\
  (VFS.iter after_read = VFS.iter s /\ keymap after_read = keymap s /\
   mode after_read = mode s) /\
  snd (fromKey UUID_of_str key s) = s.
Proof.
  cbn zeta. split; [|split].
  - destruct (add UUID_of_str now key ft data atime s) as [r s'] eqn:E.
    apply add_keeps in E. unfold VFS.iter. cbn [snd]. tauto.
  - destruct (VFS.read offset sz s) as [r s'] eqn:E.
    apply read_keeps in E. unfold VFS.iter. cbn [snd]. tauto.
  - apply fromKey_store.
Qed.

(** A store reached in write mode has no entries and no keys. *)
Lemma reachable_w_empty (s : LLVFS) :
  reachable_w UUID_of_str s -> entries s = [] /\ keymap s = [].
Proof.
  induction 1 as [index data s Hi | s now key ft d atime _ IH
                 | s offset sz _ IH | s key _ IH].
  - apply init_write_store in Hi as ->. auto.
  - destruct (add UUID_of_str now key ft d atime s) as [r s'] eqn:E.
    apply add_keeps in E as (_ & He & Hk). cbn [snd]. rewrite He, Hk. exact IH.
  - destruct (VFS.read offset sz s) as [r s'] eqn:E.
    apply read_keeps in E as (_ & He & Hk). cbn [snd]. rewrite He, Hk. exact IH.
  - rewrite fromKey_store. exact IH.
Qed.

(** X13: a store opened in write mode stays empty in memory whatever is
    added to it: its length is 0, iterating it yields nothing, [fromKey]
    finds no key, and [read] called on an entry that refers to it returns
    [None]. *)
Theorem write_store_stays_empty (s : LLVFS) (k : UUID)
    (e : Entry.LLVFSEntry) :
  reachable_w UUID_of_str s ->
  VFS.len s = 0 /\ VFS.iter s = [] /\
  fromKey UUID_of_str (KUUID k) s = (Ok None, s) /\
  EntryIO.read e s = (Ok None, s).
Proof.
  intros H. apply reachable_w_empty in H as [He Hk].
  unfold VFS.len, VFS.iter, EntryIO.read, VFS.len. rewrite He.
  split; [reflexivity|]. split; [reflexivity|]. split.
  - unfold fromKey. cbn [resolve_key]. rewrite bind_lift_Ok.
    unfold bind, get. rewrite Hk. reflexivity.
  - cbn. rewrite orb_true_r. reflexivity.
Qed.

End Frames.

Lemma write_store_stays_empty_witness :
  VFS.len hi_added = 0 /\ VFS.iter hi_added = [] /\
  VFS.fromKey no_str_key (VFS.KUUID key7) hi_added = (Ok None, hi_added) /\
  EntryIO.read entry5 hi_added = (Ok None, hi_added).
Proof.
  apply (write_store_stays_empty no_str_key hi_added key7 entry5).
  apply (reach_add no_str_key fresh_store 7 (VFS.KUUID key7) 18 [x68; x69]
           (Some 5)).
  apply (reach_open no_str_key None None). reflexivity.
Defined.

(** ** Stores opened for reading *)

Section Loaded.

Import IO VFS Struct.

Variable UUID_of_str : string -> result UUID.

(** What a successful construction in mode ["r"] built. *)
Lemma init_read_inv (index data : list byte) (s : LLVFS) :
  VFS.init (Some index) (Some data) "r" = Ok s ->
  (length index mod size = 0)%nat /\
  s = mkVFS "r" (map entry_of_items (records index))
            (map item3 (records index))
            (File RB index (0 + IO.len index)) (File RB data 0).
Proof.
  intros H.
  destruct (Nat.eq_dec (length index mod size)%nat 0%nat) as [E|E].
  - split; [exact E|]. rewrite init_read_whole in H by exact E. congruence.
  - rewrite init_read_partial in H by exact E. discriminate.
Qed.

Lemma le_int_take_bound (n : nat) (l : list byte) :
  0 <= le_int (take n l) < 256 ^ Z.of_nat n.
Proof.
  pose proof (le_int_bound (take n l)) as H.
  assert (256 ^ Z.of_nat (length (take n l)) <= 256 ^ Z.of_nat n).
  { apply Z.pow_le_mono_r; [lia|]. rewrite length_take. lia. }
  lia.
Qed.

(** The fields of every decoded record are within their formats. *)
Lemma records_bounds (index : list byte) :
  (length index mod size = 0)%nat ->
  Forall (fun it =>
            0 <= item0 it < 2 ^ 32 /\ 0 <= item1 it < 2 ^ 32 /\
            0 <= item2 it < 2 ^ 32 /\ length (item3 it) = 16%nat /\
            0 <= item4 it < 2 ^ 16 /\ 0 <= item5 it < 2 ^ 32)
         (records index).
Proof.
  intros Hm. pose proof (records_wf index Hm) as Hwf.
  unfold records in *. rewrite Forall_map in *.
  eapply Forall_impl; [exact Hwf|].
  intros c [H3 H5]. cbn [unpack item0 item1 item2 item3 item4 item5] in *.
  pose proof (le_int_take_bound 4 c).
  pose proof (le_int_take_bound 4 (drop 4 c)).
  pose proof (le_int_take_bound 4 (drop 8 c)).
  pose proof (le_int_take_bound 2 (drop 28 c)).
  change (256 ^ Z.of_nat 4) with (2 ^ 32) in *.
  change (256 ^ Z.of_nat 2) with (2 ^ 16) in *.
  repeat split; lia || assumption.
Qed.

(** The shape of a store opened for reading. *)
Lemma loaded_store_shape (index data : list byte) (s : LLVFS) :
  VFS.init (Some index) (Some data) "r" = Ok s ->
  VFS.len s = Z.of_nat (length index / size) /\
  keymap s = map Entry.key (VFS.iter s) /\
  Forall (fun e =>
            Entry.VFS e = true /\ length (Entry.key e) = 16%nat /\
            0 <= Entry.offset e < 2 ^ 32 /\ 0 <= Entry.size e < 2 ^ 32 /\
            0 <= Entry.filetype e < 2 ^ 16 /\
            Entry.size e <= Entry._length e <= 2 ^ 32)
         (VFS.iter s).
Proof.
  intros H. apply init_read_inv in H as [Hm ->].
  unfold VFS.len, VFS.iter. cbn [entries keymap].
  split; [|split].
  - rewrite length_map. unfold records. rewrite length_map.
    f_equal. clear Hm. generalize (length index / size)%nat as n.
    intros n. revert index. induction n as [|n IH]; intros index; cbn;
      [reflexivity | now rewrite IH].
  - rewrite map_map. reflexivity.
  - rewrite Forall_map. eapply Forall_impl; [exact (records_bounds index Hm)|].
    intros it (H0 & H1 & H2 & H3 & H4 & H5).
    unfold entry_of_items, Entry.size. cbn.
    repeat split; try lia; try assumption.
    + destruct (Z.ltb_spec (item1 it) (item5 it)); [|lia].
      pose proof (Z.div_mod (item5 it + 1023) 1024 ltac:(lia)).
      pose proof (Z.mod_pos_bound (item5 it + 1023) 1024 ltac:(lia)). lia.
    + destruct (Z.ltb_spec (item1 it) (item5 it)); [|lia].
      assert ((item5 it + 1023) / 1024 <= 2 ^ 22); [|lia].
      apply Z.lt_succ_r. apply Z.div_lt_upper_bound; lia.
Qed.

(** X14: in a store opened for reading there is one entry per record of
    the index file, the keys are listed in step with the entries, and every
    entry refers to the store, has a 16-byte key, an offset, a size and a
    type code within their formats, and a stored length that covers its
    size. *)
Theorem loaded_entries_wf (index data : list byte) (s : LLVFS) :
  VFS.init (Some index) (Some data) "r" = Ok s ->
  VFS.len s = Z.of_nat (length index / size) /\
  keymap s = map Entry.key (VFS.iter s) /\
  Forall (fun e =>
            Entry.VFS e = true /\ length (Entry.key e) = 16%nat /\
            0 <= Entry.offset e < 2 ^ 32 /\ 0 <= Entry.size e < 2 ^ 32 /\
            0 <= Entry.filetype e < 2 ^ 16 /\
            Entry.size e <= Entry._length e <= 2 ^ 32)
         (VFS.iter s).
Proof. apply loaded_store_shape. Qed.

Lemma loaded_entries_wf_witness :
  exists s,
    VFS.init (Some two_records) (Some []) "r" = Ok s /\
    VFS.len s = 2 /\ keymap s = map Entry.key (VFS.iter s).
Proof.
  eexists. split; [vm_compute; reflexivity|].
  destruct (loaded_entries_wf two_records []
              (mkVFS "r" (map entry_of_items (records two_records))
                     (map item3 (records two_records))
                     (File RB two_records (0 + IO.len two_records))
                     (File RB [] 0))
              ltac:(vm_compute; reflexivity)) as (Hl & Hk & _).
  split; [exact Hl | exact Hk].
Defined.

End Loaded.

Section LoadedLookup.

Import IO VFS Struct.

Variable UUID_of_str : string -> result UUID.

Lemma UUID_eqb_eq (a b : UUID) : UUID_eqb a b = true <-> a = b.
Proof.
  split; [|intros ->; apply UUID_eqb_refl].
  revert b. induction a as [|x a IH]; intros [|y b]; cbn;
    try discriminate; [reflexivity|].
  intros H. apply andb_true_iff in H as [Hx Hab].
  apply Byte.byte_dec_bl in Hx. f_equal; [exact Hx | exact (IH _ Hab)].
Qed.

(** X15: on a store opened for reading, [fromKey] with a [UUID] never
    raises and leaves the store as it is; the entry it returns is one of
    the entries and bears the key asked for; it returns [None] exactly
    when no entry bears that key. *)
Theorem fromKey_found_iff (index data : list byte) (s : LLVFS) (k : UUID) :
  VFS.init (Some index) (Some data) "r" = Ok s ->
  exists found,
    fromKey UUID_of_str (KUUID k) s = (Ok found, s) /\
    (forall e, found = Some e -> In e (VFS.iter s) /\ Entry.key e = k) /\
    (found = None <-> forall e, In e (VFS.iter s) -> Entry.key e <> k).
Proof.
  intros H. apply init_read_inv in H as [Hm ->].
  eexists. split.
  - apply fromKey_first. cbn [keymap entries]. rewrite map_map. reflexivity.
  - unfold VFS.iter. cbn [entries].
    set (es := map entry_of_items (records index)).
    split.
    + intros e He. apply List.find_some in He as [Hin Heq].
      split; [exact Hin | apply UUID_eqb_eq; exact Heq].
    + split.
      * intros Hnone e Hin Hk.
        pose proof (List.find_none _ _ Hnone e Hin) as Hf. cbn in Hf.
        rewrite Hk, UUID_eqb_refl in Hf. discriminate.
      * intros Hall.
        destruct (List.find _ es) as [e|] eqn:Hf; [|reflexivity].
        apply List.find_some in Hf as [Hin Heq].
        apply UUID_eqb_eq in Heq. destruct (Hall e Hin Heq).
Qed.

(** X16: [loadIndexFile] does not start from an empty list: called again
    on a store opened for reading, it appends a second copy of every entry
    and of every key. *)
Theorem loadIndexFile_again_duplicates (index data : list byte) (s : LLVFS) :
  VFS.init (Some index) (Some data) "r" = Ok s ->
  exists s',
    loadIndexFile s = (Ok tt, s') /\
    VFS.iter s' = VFS.iter s ++ VFS.iter s /\
    keymap s' = keymap s ++ keymap s.
Proof.
  intros H. apply init_read_inv in H as [Hm ->].
  rewrite loadIndexFile_readable by reflexivity. cbn [indexFile f_bytes].
  rewrite iter_unpack_whole, bind_lift_Ok by assumption.
  rewrite load_entries_ok by (apply records_wf; assumption).
  eexists. split; [reflexivity|]. split; reflexivity.
Qed.

Lemma loadIndexFile_again_duplicates_witness :
  exists s',
    loadIndexFile (mkVFS "r" (map entry_of_items (records two_records))
                         (map item3 (records two_records))
                         (File RB two_records (0 + IO.len two_records))
                         (File RB [] 0))
    = (Ok tt, s') /\
    length (VFS.iter s') = 4%nat.
Proof.
  destruct (loadIndexFile_again_duplicates two_records [] _
              (init_read_whole two_records [] ltac:(vm_compute; reflexivity)))
    as (s' & Hl & Hi & _).
  exists s'. split; [exact Hl|]. rewrite Hi. reflexivity.
Defined.

(** X17: on a store opened for reading, [read] called on one of its
    entries never takes the [None] branch: it returns the bytes of the
    data file from the entry's offset, up to the entry's size or the end of
    the file. *)
Theorem entry_read_of_loaded (index data : list byte) (s : LLVFS)
    (e : Entry.LLVFSEntry) :
  VFS.init (Some index) (Some data) "r" = Ok s ->
  In e (VFS.iter s) ->
  fst (EntryIO.read e s)
  = Ok (Some (take (Z.to_nat (Entry.size e))
                   (drop (Z.to_nat (Entry.offset e)) data))).
Proof.
  intros H Hin.
  destruct (loaded_store_shape index data s H) as (_ & _ & Hwf).
  rewrite Forall_forall in Hwf.
  destruct (Hwf e ltac:(apply list_elem_of_In; exact Hin))
    as (Hv & _ & Ho & Hs & _).
  apply init_read_inv in H as [Hm ->].
  unfold EntryIO.read, VFS.len. rewrite Hv. cbn [negb orb entries].
  unfold VFS.iter in Hin. cbn [entries] in Hin.
  destruct (map entry_of_items (records index)) as [|e0 es]; [destruct Hin|].
  cbn [length Z.of_nat Z.eqb].
  match goal with
  | |- context [VFS.read ?o ?n ?st] =>
      pose proof (read_readable st o n eq_refl ltac:(lia) ltac:(lia)) as Hr;
      destruct (VFS.read o n st) as [[b|x] st']
  end; cbn [fst dataFile f_bytes] in Hr |- *; [|discriminate Hr].
  injection Hr as ->. reflexivity.
Qed.

Lemma entry_read_of_loaded_witness :
  fst (EntryIO.read (entry_of_items (Items 0 1024 5 key7 18 2))
         (mkVFS "r" (map entry_of_items (records two_records))
                (map item3 (records two_records))
                (File RB two_records (0 + IO.len two_records))
                (File RB [x68; x69; x00] 0)))
  = Ok (Some [x68; x69]).
Proof.
  apply (entry_read_of_loaded two_records [x68; x69; x00] _
           (entry_of_items (Items 0 1024 5 key7 18 2))
           (init_read_whole two_records _ ltac:(vm_compute; reflexivity))).
  vm_compute. left. reflexivity.
Defined.

End LoadedLookup.

Lemma fromKey_found_iff_witness :
  exists found,
    VFS.fromKey no_str_key (VFS.KUUID key7)
            (VFS.mkVFS "r" (map entry_of_items (records two_records))
                   (map Struct.item3 (records two_records))
                   (IO.File IO.RB two_records (0 + IO.len two_records))
                   (IO.File IO.RB [] 0))
    = (Ok found,
       VFS.mkVFS "r" (map entry_of_items (records two_records))
             (map Struct.item3 (records two_records))
             (IO.File IO.RB two_records (0 + IO.len two_records))
             (IO.File IO.RB [] 0)) /\
    found <> None.
Proof.
  destruct (fromKey_found_iff no_str_key two_records [] _ key7
              (init_read_whole two_records [] ltac:(vm_compute; reflexivity)))
    as (found & Hf & _ & Hnone).
  exists found. split; [exact Hf|].
  intros Hn. apply (proj1 Hnone Hn (entry_of_items (Struct.Items 0 1024 5 key7 18 2))).
  - vm_compute. left. reflexivity.
  - reflexivity.
Defined.

(** ** Runs of [add] *)

Section Appending.

Import IO VFS Struct.

Variable UUID_of_str : string -> result UUID.

Lemma write_end_eq (d : list byte) (f : file) :
  f_mode f = WB -> f_pos f = IO.len (f_bytes f) ->
  write d f = (Ok (IO.len d), File WB (f_bytes f ++ d) (IO.len (f_bytes f ++ d))).
Proof.
  intros Hm Hp. rewrite write_writable by congruence. f_equal.
  destruct (write_at_end d f Hm Hp) as [Hb Hq].
  pose proof (write_mode d f) as Hmo. rewrite Hm in Hmo.
  destruct (snd (write d f)) as [m b p]. cbn in *. congruence.
Qed.

(** [add] on a store whose files are open for writing at their ends. *)
Lemma add_eval (s : LLVFS) now key ft d atime :
  append_inv s ->
  add UUID_of_str now key ft d atime s =
  match PyNum.ceil1024 (IO.len d) with
  | Raise e => (Raise e, s)
  | Ok l =>
      let dat := f_bytes (dataFile s) ++ d
                 ++ replicate (Z.to_nat (l - IO.len d)) x00 in
      let s1 := mkVFS (mode s) (entries s) (keymap s) (indexFile s)
                      (File WB dat (IO.len dat)) in
      match resolve_key UUID_of_str key with
      | Raise e => (Raise e, s1)
      | Ok k =>
          match pack (IO.len (f_bytes (dataFile s))) l
                     (recorded_time now atime) k ft (IO.len d) with
          | Raise e => (Raise e, s1)
          | Ok r =>
              (Ok tt,
               mkVFS (mode s) (entries s) (keymap s)
                     (File WB (f_bytes (indexFile s) ++ r)
                           (IO.len (f_bytes (indexFile s) ++ r)))
                     (File WB dat (IO.len dat)))
          end
      end
  end.
Proof.
  intros (Hmi & Hmd & Hpi & Hpd).
  unfold add. fold (recorded_time now atime).
  destruct (PyNum.ceil1024 (IO.len d)) as [l|e]; [|reflexivity].
  rewrite bind_lift_Ok. unfold bind at 1, get at 1.
  unfold bind at 1, on_dataFile at 1.
  rewrite write_end_eq by assumption.
  unfold bind at 1. unfold tell. rewrite Hpd.
  assert ((if 0 <? l - IO.len d
           then on_dataFile (write (replicate (Z.to_nat (l - IO.len d)) x00))
           else ret 0)
            (mkVFS (mode s) (entries s) (keymap s) (indexFile s)
                   (File WB (f_bytes (dataFile s) ++ d)
                         (IO.len (f_bytes (dataFile s) ++ d))))
          = (Ok (if 0 <? l - IO.len d
                 then IO.len (replicate (Z.to_nat (l - IO.len d)) x00) else 0),
             mkVFS (mode s) (entries s) (keymap s) (indexFile s)
               (File WB (f_bytes (dataFile s) ++ d
                         ++ replicate (Z.to_nat (l - IO.len d)) x00)
                  (IO.len (f_bytes (dataFile s) ++ d
                           ++ replicate (Z.to_nat (l - IO.len d)) x00)))))
    as ->.
  { destruct (Z.ltb_spec 0 (l - IO.len d)) as [Hpad|Hpad].
    - unfold on_dataFile. cbn [dataFile indexFile mode entries keymap].
      rewrite write_end_eq by reflexivity. cbn [f_bytes].
      rewrite <- app_assoc. reflexivity.
    - replace (Z.to_nat (l - IO.len d)) with 0%nat by lia.
      cbn [replicate]. rewrite app_nil_r. reflexivity. }
  cbn zeta.
  destruct (resolve_key UUID_of_str key) as [k|e]; [|reflexivity].
  rewrite bind_lift_Ok.
  destruct (pack _ _ _ _ _ _) as [r|e]; [|reflexivity].
  rewrite bind_lift_Ok. unfold bind, on_indexFile, ret.
  cbn [indexFile dataFile mode entries keymap].
  rewrite write_end_eq by assumption. reflexivity.
Qed.

Lemma append_inv_fresh index data s :
  VFS.init index data "w" = Ok s -> append_inv s.
Proof.
  intros H. apply init_write_store in H as ->. repeat split.
Qed.

Lemma pack_raises_struct_error v0 v1 v2 v3 v4 v5 e :
  pack v0 v1 v2 v3 v4 v5 = Raise e -> e = StructError.
Proof.
  unfold pack, pack_uint.
  repeat match goal with
         | |- context [if ?c then _ else _] => destruct c; cbn [rbind]
         end; congruence.
Qed.

(** X18: [add] is not atomic.  When the record cannot be packed because
    the type code does not fit 16 bits (as for the registered code -2), it
    raises [struct.error] after the payload and its padding have been
    appended to the data file, and the index file is left as it was. *)
Theorem add_bad_type_code (s : LLVFS) now key k ft d atime :
  append_inv s ->
  resolve_key UUID_of_str key = Ok k ->
  IO.len d < 2 ^ 53 ->
  ~ (0 <= ft < 2 ^ 16) ->
  exists s',
    add UUID_of_str now key ft d atime s = (Raise StructError, s') /\
    indexFile s' = indexFile s /\
    f_bytes (dataFile s') =
      f_bytes (dataFile s) ++ d
      ++ replicate (Z.to_nat (1024 * ((IO.len d + 1023) / 1024) - IO.len d)) x00.
Proof.
  intros Hinv Hk Hd Hft.
  rewrite add_eval by assumption.
  rewrite ceil1024_small by (unfold IO.len in *; lia).
  cbn zeta. rewrite Hk.
  destruct (pack _ _ _ _ _ _) as [r|e] eqn:Hp.
  - apply pack_ok in Hp. tauto.
  - apply pack_raises_struct_error in Hp as ->.
    eexists. split; [reflexivity|]. split; reflexivity.
Qed.

Lemma records_concat (rs : list (list byte)) :
  Forall (fun r => length r = size) rs ->
  (length (concat rs) mod size = 0)%nat /\
  records (concat rs) = map unpack rs.
Proof.
  induction 1 as [|r rs Hr _ [IHm IHr]]; [split; reflexivity|].
  cbn [concat map]. split.
  - rewrite length_app, Hr, <- Nat.Div0.add_mod_idemp_r, IHm. reflexivity.
  - rewrite records_cons, IHr by assumption. reflexivity.
Qed.

(** What a run of [add] calls that all return leaves in the two files. *)
Lemma add_each_appends (calls : list add_call) (s s' : LLVFS) :
  append_inv s ->
  add_each UUID_of_str calls s = (Ok tt, s') ->
  exists rs more,
    f_bytes (indexFile s') = f_bytes (indexFile s) ++ concat rs /\
    f_bytes (dataFile s') = f_bytes (dataFile s) ++ more /\
    Forall (fun r => length r = size) rs /\
    contiguous_from (IO.len (f_bytes (dataFile s)))
                    (map (fun r => entry_of_items (unpack r)) rs) /\
    IO.len more = total_length (map (fun r => entry_of_items (unpack r)) rs) /\
    Forall2 (fun r c =>
               let e := entry_of_items (unpack r) in
               0 <= Entry.offset e /\
               Entry.size e = IO.len (c_data c) /\
               Entry._length e mod 1024 = 0 /\
               Entry.filetype e = c_filetype c /\
               Entry.accesstime e = recorded_time (c_now c) (c_accesstime c) /\
               take (length (c_data c))
                    (drop (Z.to_nat (Entry.offset e))
                          (f_bytes (dataFile s) ++ more)) = c_data c)
            rs calls.
Proof.
  revert s. induction calls as [|c rest IH]; intros s Hinv.
  - intros [= <-]. exists [], []. cbn. rewrite !app_nil_r.
    repeat split; constructor.
  - cbn [add_each]. unfold bind at 1. rewrite add_eval by assumption.
    destruct (PyNum.ceil1024 (IO.len (c_data c))) as [l|e] eqn:Hc;
      [|discriminate].
    cbn zeta.
    destruct (resolve_key UUID_of_str (c_key c)) as [k|e]; [|discriminate].
    destruct (pack _ _ _ _ _ _) as [r|e] eqn:Hp; [|discriminate].
    set (dat := f_bytes (dataFile s)) in *.
    set (d := c_data c) in *.
    set (pad := replicate (Z.to_nat (l - IO.len d)) x00) in *.
    intros Hrest. apply IH in Hrest; [|repeat split].
    destruct Hrest as (rs & more & Hi & Hd & Hlen & Hcont & Htot & Hall).
    cbn [indexFile dataFile f_bytes] in Hi, Hd, Hcont, Hall.
    pose proof (pack_length _ _ _ _ _ _ _ Hp) as Hr.
    pose proof (unpack_pack _ _ _ _ _ _ _ Hp) as Hu.
    apply pack_ok in Hp as (_ & Hoff & Hl & _ & _ & Hsz).
    assert (2 ^ 32 < 2 ^ 53) as Hpow by (apply Z.pow_lt_mono_r; lia).
    destruct (ceil1024_spec (IO.len d) l ltac:(lia) Hc) as [Hmul Hbnd].
    assert (Entry._length (entry_of_items (unpack r)) = l) as Hel.
    { rewrite Hu. cbn. destruct (Z.ltb_spec l (IO.len d)); [lia | reflexivity]. }
    assert (IO.len pad = l - IO.len d) as Hpad.
    { unfold pad, IO.len. rewrite length_replicate. unfold IO.len in Hbnd. lia. }
    exists (r :: rs), (d ++ pad ++ more).
    split; [rewrite Hi; cbn [concat]; rewrite <- app_assoc; reflexivity|].
    split; [rewrite Hd; rewrite <- !app_assoc; reflexivity|].
    split; [constructor; assumption|].
    cbn [map contiguous_from total_length fold_right].
    fold (total_length (map (fun r => entry_of_items (unpack r)) rs)).
    rewrite Hel. split; [|split].
    + split; [rewrite Hu; reflexivity|].
      replace (IO.len dat + l) with (IO.len (dat ++ d ++ pad)); [exact Hcont|].
      unfold IO.len in *. rewrite !length_app. lia.
    + rewrite <- Htot. unfold IO.len in *. rewrite !length_app. lia.
    + constructor.
      * cbn zeta. rewrite Hel, Hu. cbn.
        repeat split; try lia; try assumption.
        unfold IO.len. rewrite Nat2Z.id.
        rewrite drop_app_length. apply take_app_length.
      * eapply Forall2_impl; [exact Hall|].
        intros r' c'. cbn zeta. rewrite <- !app_assoc. tauto.
Qed.

(** The store read back after a run of [add] calls on a fresh store. *)
Lemma add_each_reload (calls : list add_call) (index data : option (list byte))
    (s s' : LLVFS) :
  VFS.init index data "w" = Ok s ->
  add_each UUID_of_str calls s = (Ok tt, s') ->
  exists rs,
    VFS.init (Some (f_bytes (indexFile s'))) (Some (f_bytes (dataFile s'))) "r"
    = Ok (mkVFS "r" (map (fun r => entry_of_items (unpack r)) rs)
                (map item3 (map unpack rs))
                (File RB (f_bytes (indexFile s'))
                      (0 + IO.len (f_bytes (indexFile s'))))
                (File RB (f_bytes (dataFile s')) 0)) /\
    contiguous_from 0 (map (fun r => entry_of_items (unpack r)) rs) /\
    IO.len (f_bytes (dataFile s'))
    = total_length (map (fun r => entry_of_items (unpack r)) rs) /\
    Forall2 (fun r c =>
               let e := entry_of_items (unpack r) in
               0 <= Entry.offset e /\
               Entry.size e = IO.len (c_data c) /\
               Entry._length e mod 1024 = 0 /\
               Entry.filetype e = c_filetype c /\
               Entry.accesstime e = recorded_time (c_now c) (c_accesstime c) /\
               take (length (c_data c))
                    (drop (Z.to_nat (Entry.offset e)) (f_bytes (dataFile s')))
               = c_data c)
            rs calls.
Proof.
  intros Hi Hrun.
  pose proof (append_inv_fresh _ _ _ Hi) as Hinv.
  apply init_write_store in Hi as ->.
  apply add_each_appends in Hrun; [|exact Hinv].
  destruct Hrun as (rs & more & Hidx & Hdat & Hlen & Hcont & Htot & Hall).
  cbn [indexFile dataFile f_bytes app] in *.
  destruct (records_concat rs Hlen) as [Hm Hrec].
  exists rs. rewrite Hidx, Hdat.
  rewrite init_read_whole by exact Hm. rewrite Hrec, map_map.
  repeat split; assumption.
Qed.

(** X19: after a run of [add] calls on a store just opened in write mode,
    all of which returned, opening the two files for reading gives one
    entry per call, in the order of the calls; each entry has the size and
    the type code of its call, and [read] at its offset and size returns
    the payload of its call. *)
Theorem adds_reload_read_all (calls : list add_call)
    (index data : option (list byte)) (s s' : LLVFS) :
  VFS.init index data "w" = Ok s ->
  add_each UUID_of_str calls s = (Ok tt, s') ->
  exists s2,
    VFS.init (Some (f_bytes (indexFile s'))) (Some (f_bytes (dataFile s'))) "r"
    = Ok s2 /\
    Forall2 (fun e c =>
               Entry.size e = IO.len (c_data c) /\
               Entry.filetype e = c_filetype c /\
               fst (VFS.read (Entry.offset e) (Entry.size e) s2)
               = Ok (c_data c))
            (VFS.iter s2) calls.
Proof.
  intros Hi Hrun.
  destruct (add_each_reload calls index data s s' Hi Hrun)
    as (rs & Hload & _ & _ & Hall).
  eexists. split; [exact Hload|].
  unfold VFS.iter. cbn [entries]. rewrite Forall2_fmap_l.
  eapply Forall2_impl; [exact Hall|].
  intros r c (Ho & Hs & _ & Hf & _ & Hd). cbn zeta in *.
  split; [exact Hs|]. split; [exact Hf|].
  rewrite read_readable; [| reflexivity | exact Ho | unfold Entry.size, IO.len in *; lia].
  cbn [dataFile f_bytes]. unfold Entry.size in *. rewrite Hs.
  unfold IO.len. rewrite Nat2Z.id. f_equal. exact Hd.
Qed.

(** X20: the entries read back after such a run lie back to back in the
    data file: the first at offset 0, each next one where the stored length
    of the one before ends; every stored length is a multiple of 1024, and
    the data file is as long as the stored lengths together. *)
Theorem adds_lay_out_contiguously (calls : list add_call)
    (index data : option (list byte)) (s s' : LLVFS) :
  VFS.init index data "w" = Ok s ->
  add_each UUID_of_str calls s = (Ok tt, s') ->
  exists s2,
    VFS.init (Some (f_bytes (indexFile s'))) (Some (f_bytes (dataFile s'))) "r"
    = Ok s2 /\
    contiguous_from 0 (VFS.iter s2) /\
    Forall (fun e => Entry._length e mod 1024 = 0) (VFS.iter s2) /\
    IO.len (f_bytes (dataFile s')) = total_length (VFS.iter s2).
Proof.
  intros Hi Hrun.
  destruct (add_each_reload calls index data s s' Hi Hrun)
    as (rs & Hload & Hcont & Htot & Hall).
  eexists. split; [exact Hload|].
  unfold VFS.iter. cbn [entries].
  split; [exact Hcont|]. split; [|exact Htot].
  rewrite Forall_map.
  clear -Hall. induction Hall as [|r c rs cs H _ IH]; constructor; [|exact IH].
  cbn zeta in H. tauto.
Qed.

End Appending.

Lemma add_bad_type_code_witness :
  exists s',
    VFS.add no_str_key 7 (VFS.KUUID key7) (-2) [x68; x69] (Some 5) fresh_store
    = (Raise StructError, s') /\
    VFS.indexFile s' = VFS.indexFile fresh_store /\
    IO.f_bytes (VFS.dataFile s') =
      IO.f_bytes (VFS.dataFile fresh_store) ++ [x68; x69]
      ++ replicate
           (Z.to_nat (1024 * ((IO.len [x68; x69] + 1023) / 1024)
                      - IO.len [x68; x69])) x00.
Proof.
  apply (add_bad_type_code no_str_key fresh_store 7 (VFS.KUUID key7) key7 (-2)
           [x68; x69] (Some 5)).
  - repeat split.
  - reflexivity.
  - reflexivity.
  - lia.
Defined.

Lemma adds_reload_read_all_witness :
  exists s2,
    VFS.init (Some (IO.f_bytes (VFS.indexFile two_added)))
             (Some (IO.f_bytes (VFS.dataFile two_added))) "r" = Ok s2 /\
    Forall2 (fun e c =>
               Entry.size e = IO.len (c_data c) /\
               Entry.filetype e = c_filetype c /\
               fst (VFS.read (Entry.offset e) (Entry.size e) s2)
               = Ok (c_data c))
            (VFS.iter s2) two_calls.
Proof.
  apply (adds_reload_read_all no_str_key two_calls None None fresh_store
           two_added).
  - reflexivity.
  - vm_compute. reflexivity.
Defined.

Lemma adds_lay_out_contiguously_witness :
  exists s2,
    VFS.init (Some (IO.f_bytes (VFS.indexFile two_added)))
             (Some (IO.f_bytes (VFS.dataFile two_added))) "r" = Ok s2 /\
    contiguous_from 0 (VFS.iter s2) /\
    Forall (fun e => Entry._length e mod 1024 = 0) (VFS.iter s2) /\
    IO.len (IO.f_bytes (VFS.dataFile two_added)) = total_length (VFS.iter s2).
Proof.
  apply (adds_lay_out_contiguously no_str_key two_calls None None fresh_store
           two_added).
  - reflexivity.
  - vm_compute. reflexivity.
Defined.

(** ** Reading in write mode *)

Section ReadInWriteMode.

Import IO VFS.

Variable UUID_of_str : string -> result UUID.

(** X21: a store opened in write mode cannot be read, yet the attempt
    moves the position of the data file: [read] with a negative offset
    raises [OSError] and changes nothing; with any other offset it raises
    [io.UnsupportedOperation] and leaves the data file positioned at that
    offset, which is where the next [add] will write. *)
Theorem read_in_write_mode (s : LLVFS) (offset sz : Z) :
  reachable_w UUID_of_str s ->
  (offset < 0 -> VFS.read offset sz s = (Raise OSError, s)) /\
  (0 <= offset ->
   exists s',
     VFS.read offset sz s = (Raise UnsupportedOperation, s') /\
     tell (dataFile s') = offset /\
     f_bytes (dataFile s') = f_bytes (dataFile s) /\
     indexFile s' = indexFile s).
Proof.
  intros H. apply reachable_write_inv in H as (_ & Hmd & _).
  unfold VFS.read, bind, on_dataFile, seek. split.
  - intros Ho. apply Z.ltb_lt in Ho. rewrite Ho. destruct s; reflexivity.
  - intros Ho. apply Z.ltb_ge in Ho. rewrite Ho. cbn.
    unfold IO.read. cbn. rewrite Hmd.
    eexists. split; [reflexivity|]. repeat split.
Qed.

End ReadInWriteMode.

Lemma read_in_write_mode_witness :
  VFS.read (-1) 2 hi_added = (Raise OSError, hi_added) /\
  exists s',
    VFS.read 3 2 hi_added = (Raise UnsupportedOperation, s') /\
    IO.tell (VFS.dataFile s') = 3 /\
    IO.f_bytes (VFS.dataFile s') = IO.f_bytes (VFS.dataFile hi_added) /\
    VFS.indexFile s' = VFS.indexFile hi_added.
Proof.
  assert (reachable_w no_str_key hi_added) as H.
  { apply (reach_add no_str_key fresh_store 7 (VFS.KUUID key7) 18 [x68; x69]
             (Some 5)).
    apply (reach_open no_str_key None None). reflexivity. }
  split.
  - apply (proj1 (read_in_write_mode no_str_key hi_added (-1) 2 H)). lia.
  - apply (proj2 (read_in_write_mode no_str_key hi_added 3 2 H)). lia.
Defined.

(** ** The key/path map built from a dict *)

Section PathMapInit.

Import PathMap.

Lemma init_snoc (items : list (string * string)) (key path : string) :
  init (Some (items ++ [(key, path)])) = map (init (Some items)) key path.
Proof. unfold init. rewrite fold_left_app. reflexivity. Qed.

Lemma consistent_empty : consistent (init None).
Proof. intros k p. cbn. rewrite !lookup_empty. split; discriminate. Qed.

Lemma consistent_map_fresh (self : PathMap) (key path : string) :
  consistent self ->
  findKey self key = None -> findPath self path = None ->
  consistent (map self key path).
Proof.
  intros Hc Hk Hp k p. unfold findKey, findPath, map in *. cbn.
  destruct (decide (key = k)) as [->|Hnk];
    destruct (decide (path = p)) as [->|Hnp].
  - rewrite !lookup_insert_eq. split; reflexivity.
  - rewrite lookup_insert_eq, lookup_insert_ne by exact Hnp.
    split; [congruence|]. intros H. apply Hc in H. congruence.
  - rewrite lookup_insert_ne, lookup_insert_eq by exact Hnk.
    split; [|congruence]. intros H. apply Hc in H. congruence.
  - rewrite !lookup_insert_ne by assumption. apply Hc.
Qed.

(** X22: mapping a key and a path that are both unmapped keeps the two
    directions inverse to each other; the empty map has that property. *)
Theorem map_fresh_keeps_consistent (self : PathMap) (key path : string) :
  consistent (init None) /\
  (consistent self ->
   findKey self key = None -> findPath self path = None ->
   consistent (map self key path)).
Proof.
  split; [exact consistent_empty | apply consistent_map_fresh].
Qed.

Lemma map_fresh_keeps_consistent_witness :
  consistent (map (init None) "k" "p").
Proof.
  apply (proj2 (map_fresh_keeps_consistent (init None) "k" "p")).
  - apply (proj1 (map_fresh_keeps_consistent (init None) "k" "p")).
  - reflexivity.
  - reflexivity.
Defined.

Lemma init_findKey_fresh (items : list (string * string)) (k : string) :
  ~ In k items.*1 -> findKey (init (Some items)) k = None.
Proof.
  induction items as [|[k' p'] items IH] using rev_ind; intros Hn.
  - apply lookup_empty.
  - rewrite init_snoc. unfold findKey, map. cbn.
    rewrite fmap_app, in_app_iff in Hn. cbn in Hn.
    rewrite lookup_insert_ne by tauto. apply IH. tauto.
Qed.

Lemma init_findPath_fresh (items : list (string * string)) (p : string) :
  ~ In p items.*2 -> findPath (init (Some items)) p = None.
Proof.
  induction items as [|[k' p'] items IH] using rev_ind; intros Hn.
  - apply lookup_empty.
  - rewrite init_snoc. unfold findPath, map. cbn.
    rewrite fmap_app, in_app_iff in Hn. cbn in Hn.
    rewrite lookup_insert_ne by tauto. apply IH. tauto.
Qed.

(** X23: a [PathMap] built from a dict finds, for every key of the dict,
    the path the dict gives it, and finds nothing for other keys; when
    the paths of the dict are pairwise distinct as well, the two
    directions of the map are inverse to each other. *)
Theorem init_from_dict (items : list (string * string)) :
  NoDup items.*1 ->
  (forall k p, In (k, p) items -> findKey (init (Some items)) k = Some p) /\
  (forall k, ~ In k items.*1 -> findKey (init (Some items)) k = None) /\
  (NoDup items.*2 -> consistent (init (Some items))).
Proof.
  intros Hnd. split; [|split].
  - induction items as [|[k' p'] items IH] using rev_ind; [intros k p []|].
    intros k p Hin. rewrite init_snoc. unfold findKey, map. cbn.
    rewrite fmap_app in Hnd. apply NoDup_app in Hnd as (Hnd1 & Hdisj & _).
    apply in_app_iff in Hin as [Hin|[[= -> ->]|[]]].
    + rewrite lookup_insert_ne; [exact (IH Hnd1 k p Hin)|].
      intros ->. apply (Hdisj k).
      * apply list_elem_of_In. apply (in_map fst) in Hin. exact Hin.
      * cbn. left.
    + apply lookup_insert_eq.
  - apply init_findKey_fresh.
  - induction items as [|[k' p'] items IH] using rev_ind; intros Hp.
    + exact consistent_empty.
    + rewrite init_snoc.
      rewrite fmap_app in Hnd, Hp.
      apply NoDup_app in Hnd as (Hnd1 & Hdk & _).
      apply NoDup_app in Hp as (Hp1 & Hdp & _).
      apply consistent_map_fresh.
      * exact (IH Hnd1 Hp1).
      * apply init_findKey_fresh. intros Hin.
        apply (Hdk k'); [apply list_elem_of_In; exact Hin | cbn; left].
      * apply init_findPath_fresh. intros Hin.
        apply (Hdp p'); [apply list_elem_of_In; exact Hin | cbn; left].
Qed.

Lemma init_from_dict_witness :
  findKey (init (Some [("k1", "p1"); ("k2", "p2")]%string)) "k2"
  = Some "p2"%string /\
  findKey (init (Some [("k1", "p1"); ("k2", "p2")]%string)) "k3" = None /\
  consistent (init (Some [("k1", "p1"); ("k2", "p2")]%string)).
Proof.
  assert (NoDup ([("k1", "p1"); ("k2", "p2")]%string).*1) as Hk.
  { apply NoDup_ListNoDup. repeat constructor; cbn; intuition discriminate. }
  assert (NoDup ([("k1", "p1"); ("k2", "p2")]%string).*2) as Hp.
  { apply NoDup_ListNoDup. repeat constructor; cbn; intuition discriminate. }
  destruct (init_from_dict [("k1", "p1"); ("k2", "p2")]%string Hk)
    as (H1 & H2 & H3).
  split; [|split].
  - apply H1. right. left. reflexivity.
  - apply H2. cbn. intuition discriminate.
  - exact (H3 Hp).
Defined.

End PathMapInit.

(** ** Abbreviations of the modes *)

Section Abbreviations.

Import ShortChoices.

Context {C : Type} `{Countable C}.

Implicit Types (cs : list (list C)) (k p : list C).

Lemma startswith_take k (m : nat) : startswith k (take m k) = true.
Proof.
  revert m. induction k as [|c k IH]; intros [|m]; cbn; try reflexivity.
  rewrite bool_decide_eq_true_2 by reflexivity. apply IH.
Qed.

Lemma startswith_prefix s p :
  startswith s p = true -> p = take (length p) s.
Proof.
  revert s. induction p as [|c p IH]; intros [|d s]; cbn;
    try reflexivity; try discriminate.
  intros H'. apply andb_true_iff in H' as [Hd Hs].
  apply bool_decide_eq_true in Hd as ->. f_equal. exact (IH _ Hs).
Qed.

(** Two choices that start with a prefix matched by one choice only are
    the same choice. *)
Lemma matching_unique cs p k k' :
  length (matching cs p) = 1%nat ->
  In k cs -> startswith k p = true ->
  In k' cs -> startswith k' p = true -> k = k'.
Proof.
  intros Hl Hk Hs Hk' Hs'.
  assert (In k (matching cs p)) as Hin by (apply filter_In; auto).
  assert (In k' (matching cs p)) as Hin' by (apply filter_In; auto).
  destruct (matching cs p) as [|x [|y l]]; try discriminate.
  destruct Hin as [<-|[]], Hin' as [<-|[]]. reflexivity.
Qed.

Lemma first_unique_spec cs k (n ix : nat) :
  match first_unique cs k n ix with
  | Some p =>
      exists m, (ix < m <= ix + n)%nat /\ p = take m k /\
                length (matching cs p) = 1%nat /\
                forall j, (ix < j < m)%nat ->
                          length (matching cs (take j k)) <> 1%nat
  | None =>
      forall j, (ix < j <= ix + n)%nat ->
                length (matching cs (take j k)) <> 1%nat
  end.
Proof.
  revert ix. induction n as [|n IH]; intros ix; cbn [first_unique].
  - intros j Hj. lia.
  - destruct (Nat.eqb_spec (length (matching cs (take (S ix) k))) 1) as [E|E].
    + exists (S ix). repeat split; try lia; try assumption.
    + specialize (IH (S ix)).
      destruct (first_unique cs k n (S ix)) as [p|].
      * destruct IH as (m & Hm & -> & Hl & Hmin).
        exists m. repeat split; try lia; try assumption.
        intros j Hj. destruct (Nat.eq_dec j (S ix)) as [->|Hne];
          [exact E | apply Hmin; lia].
      * intros j Hj. destruct (Nat.eq_dec j (S ix)) as [->|Hne];
          [exact E | apply IH; lia].
Qed.

(** The abbreviation of a choice: its shortest non-empty prefix that
    exactly one choice starts with. *)
Lemma abbreviation_iff cs k p :
  first_unique cs k (length k) 0 = Some p <->
  (exists m, (0 < m <= length k)%nat /\ p = take m k /\
             length (matching cs p) = 1%nat /\
             forall j, (0 < j < m)%nat ->
                       length (matching cs (take j k)) <> 1%nat).
Proof.
  pose proof (first_unique_spec cs k (length k) 0) as Hs.
  split.
  - intros E. rewrite E in Hs. exact Hs.
  - intros (m & Hm & -> & Hl & Hmin).
    destruct (first_unique cs k (length k) 0) as [p'|].
    + destruct Hs as (m' & Hm' & -> & Hl' & Hmin').
      destruct (lt_eq_lt_dec m m') as [[Hlt | ->] | Hgt]; [|reflexivity|].
      * destruct (Hmin' m ltac:(lia) Hl).
      * destruct (Hmin m' ltac:(lia) Hl').
    + destruct (Hs m ltac:(lia) Hl).
Qed.

Lemma abbreviation_startswith cs k p :
  first_unique cs k (length k) 0 = Some p -> startswith k p = true.
Proof.
  intros E. apply abbreviation_iff in E as (m & _ & -> & _).
  apply startswith_take.
Qed.

Lemma abbreviation_injective cs k k' p :
  In k cs -> In k' cs ->
  first_unique cs k (length k) 0 = Some p ->
  first_unique cs k' (length k') 0 = Some p -> k = k'.
Proof.
  intros Hk Hk' E E'.
  pose proof (abbreviation_startswith _ _ _ E) as Hs.
  pose proof (abbreviation_startswith _ _ _ E') as Hs'.
  apply abbreviation_iff in E as (m & _ & _ & Hl & _).
  exact (matching_unique cs p k k' Hl Hk Hs Hk' Hs').
Qed.

(** The loop of [__init__] run over a part [l] of the choices. *)
Lemma init_loop cs (l : list (list C)) :
  (forall k, In k l -> In k cs) ->
  let self :=
    fold_left
      (fun self k =>
         match first_unique (choices self) k (length k) 0 with
         | Some p =>
             mk (choices self) (<[p := k]> (mapping self))
                (<[k := p]> (gnippam self))
         | None => self
         end)
      l (mk cs ∅ ∅) in
  choices self = cs /\
  (forall p k, mapping self !! p = Some k <->
               In k l /\ first_unique cs k (length k) 0 = Some p) /\
  (forall k p, gnippam self !! k = Some p <->
               In k l /\ first_unique cs k (length k) 0 = Some p).
Proof.
  induction l as [|x l IH] using rev_ind; intros Hsub; cbn zeta.
  - cbn. split; [reflexivity|].
    split; intros a b; rewrite lookup_empty; split;
      [discriminate | intros [[] _] | discriminate | intros [[] _]].
  - rewrite fold_left_app. cbn [fold_left].
    destruct (IH ltac:(intros k Hk; apply Hsub, in_app_iff; auto))
      as (Hc & Hm & Hg).
    cbn zeta in Hc, Hm, Hg.
    set (self := fold_left _ l (mk cs ∅ ∅)) in *.
    rewrite Hc.
    assert (In x cs) as Hx by (apply Hsub, in_app_iff; right; left; reflexivity).
    destruct (first_unique cs x (length x) 0) as [px|] eqn:Ex.
    + cbn [choices mapping gnippam]. split; [first [exact Hc | reflexivity]|]. split.
      * intros p k. destruct (decide (px = p)) as [<-|Hne].
        -- rewrite lookup_insert_eq. split.
           ++ intros [= <-]. split; [apply in_app_iff; right; left; auto | exact Ex].
           ++ intros [Hin Ek]. f_equal.
              apply (abbreviation_injective cs x k px); auto.
        -- rewrite lookup_insert_ne by exact Hne. rewrite Hm.
           rewrite in_app_iff. cbn [In]. split; [tauto|].
           intros [[Hin|[<-|[]]] Ek]; [tauto | congruence].
      * intros k p. destruct (decide (x = k)) as [<-|Hne].
        -- rewrite lookup_insert_eq. rewrite Ex.
           split; [intros [= <-]; split; [apply in_app_iff; right; left|]; auto
                  | intros [_ E]; exact E].
        -- rewrite lookup_insert_ne by exact Hne. rewrite Hg.
           rewrite in_app_iff. cbn [In]. split; [tauto|].
           intros [[Hin|[E|[]]] Ek]; [tauto | contradiction].
    + split; [first [exact Hc | reflexivity]|]. split.
      * intros p k. rewrite Hm, in_app_iff. cbn [In]. split; [tauto|].
        intros [[Hin|[<-|[]]] Ek]; [tauto | congruence].
      * intros k p. rewrite Hg, in_app_iff. cbn [In]. split; [tauto|].
        intros [[Hin|[<-|[]]] Ek]; [tauto | congruence].
Qed.

Lemma init_dicts cs :
  choices (init cs) = cs /\
  (forall p k, mapping (init cs) !! p = Some k <->
               In k cs /\ first_unique cs k (length k) 0 = Some p) /\
  (forall k p, gnippam (init cs) !! k = Some p <->
               In k cs /\ first_unique cs k (length k) 0 = Some p).
Proof. apply (init_loop cs cs). auto. Qed.

(** X24: [mapping] sends [p] to [k] exactly when [k] is a choice and [p]
    is the shortest non-empty prefix of [k] that exactly one of the choices
    starts with; [gnippam] is its inverse. *)
Theorem mapping_shortest_unique_prefix cs p k :
  (mapping (init cs) !! p = Some k <->
   In k cs /\
   exists m, (0 < m <= length k)%nat /\ p = take m k /\
             length (matching cs p) = 1%nat /\
             forall j, (0 < j < m)%nat ->
                       length (matching cs (take j k)) <> 1%nat) /\
  (gnippam (init cs) !! k = Some p <-> mapping (init cs) !! p = Some k).
Proof.
  destruct (init_dicts cs) as (_ & Hm & Hg).
  split.
  - rewrite Hm, abbreviation_iff. reflexivity.
  - rewrite Hm, Hg. reflexivity.
Qed.

Lemma call_choice cs k : In k cs -> call (init cs) k = Some k.
Proof.
  intros Hk. destruct (init_dicts cs) as (Hc & Hm & _).
  unfold call. destruct (mapping (init cs) !! k) as [k'|] eqn:E.
  - apply Hm in E as [Hk' E]. f_equal.
    pose proof (abbreviation_startswith _ _ _ E) as Hs.
    apply abbreviation_iff in E as (m & _ & _ & Hl & _).
    apply (matching_unique cs k k' k Hl Hk' Hs Hk).
    rewrite <- (firstn_all k) at 2. apply startswith_take.
  - rewrite Hc, bool_decide_eq_true_2; [reflexivity|].
    apply list_elem_of_In. exact Hk.
Qed.

(** X25: [__call__] returns the choice [k] for exactly two arguments: [k]
    itself and the abbreviation recorded for [k]; any other argument,
    longer prefixes of a choice included, gives [None].  What it returns is
    a choice, which it maps to itself; [__contains__] holds of the
    arguments for which [__call__] returns a choice. *)
Theorem call_accepts cs prop k :
  (call (init cs) prop = Some k <->
   In k cs /\ (prop = k \/ first_unique cs k (length k) 0 = Some prop)) /\
  (call (init cs) prop = Some k -> call (init cs) k = Some k) /\
  (contains (init cs) prop = true <-> call (init cs) prop <> None).
Proof.
  destruct (init_dicts cs) as (Hc & Hm & _).
  assert (call (init cs) prop = Some k <->
          In k cs /\ (prop = k \/ first_unique cs k (length k) 0 = Some prop))
    as Hiff.
  { split.
    - unfold call. destruct (mapping (init cs) !! prop) as [k'|] eqn:E.
      + intros [= <-]. apply Hm in E. tauto.
      + rewrite Hc. destruct (bool_decide_reflect (prop ∈ cs)) as [Hin|Hin];
          [|discriminate].
        intros [= <-]. apply list_elem_of_In in Hin. tauto.
    - intros [Hk [-> | E]]; [exact (call_choice cs k Hk)|].
      unfold call. rewrite (proj2 (Hm prop k) (conj Hk E)). reflexivity. }
  split; [exact Hiff|]. split.
  - intros Hcall. apply Hiff in Hcall as [Hk _]. exact (call_choice cs k Hk).
  - unfold contains, call. rewrite Hc.
    destruct (mapping (init cs) !! prop) as [k'|] eqn:E.
    + apply Hm in E as [Hk' _]. rewrite bool_decide_eq_true.
      split; [discriminate|]. intros _. apply list_elem_of_In. exact Hk'.
    + destruct (bool_decide (prop ∈ cs)); split; congruence.
Qed.

Lemma startswith_trans (s p : list C) (j : nat) :
  startswith s p = true -> startswith s (take j p) = true.
Proof.
  revert s j. induction p as [|c p IH]; intros s j Hs.
  - destruct j; reflexivity.
  - destruct j as [|j]; [reflexivity|].
    destruct s as [|d s]; [discriminate Hs|].
    cbn in *. apply andb_true_iff in Hs as [Hd Hs].
    rewrite Hd. exact (IH _ _ Hs).
Qed.

(** A choice that another choice starts with has no abbreviation. *)
Lemma prefix_choice_no_abbreviation cs k k' :
  In k cs -> In k' cs -> k' <> k -> startswith k' k = true ->
  first_unique cs k (length k) 0 = None.
Proof.
  intros Hk Hk' Hne Hs.
  destruct (first_unique cs k (length k) 0) as [p|] eqn:E; [|reflexivity].
  pose proof (abbreviation_startswith _ _ _ E) as Hkp.
  apply abbreviation_iff in E as (m & _ & -> & Hl & _).
  destruct Hne. symmetry.
  apply (matching_unique cs (take m k) k k' Hl Hk Hkp Hk').
  apply startswith_trans. exact Hs.
Qed.

Variables (lbracket rbracket : C).

(** X26: [__next__] at a counter within the choices returns the
    abbreviation of the choice at that place, followed by the rest of the
    choice between brackets, and advances the counter; it raises [KeyError]
    when that choice has no abbreviation, as is the case of a choice that
    another choice starts with; past the last choice it raises
    [StopIteration]. *)
Theorem next_formats_or_raises cs (n : nat) :
  ((length cs <= n)%nat ->
   next lbracket rbracket (init cs) n = (RaisesStopIteration, n)) /\
  (forall k, cs !! n = Some k ->
     match first_unique cs k (length k) 0 with
     | Some p =>
         next lbracket rbracket (init cs) n
         = (Returns (p ++ [lbracket] ++ drop (length p) k ++ [rbracket]), S n)
         /\ p ++ drop (length p) k = k
     | None => next lbracket rbracket (init cs) n = (RaisesKeyError, n)
     end) /\
  (forall k k', cs !! n = Some k -> In k' cs -> k' <> k ->
                startswith k' k = true ->
                next lbracket rbracket (init cs) n = (RaisesKeyError, n)).
Proof.
  destruct (init_dicts cs) as (Hc & _ & Hg).
  assert (forall k, cs !! n = Some k ->
            next lbracket rbracket (init cs) n =
            match first_unique cs k (length k) 0 with
            | Some p =>
                (Returns (p ++ [lbracket] ++ drop (length p) k ++ [rbracket]),
                 S n)
            | None => (RaisesKeyError, n)
            end) as Hnext.
  { intros k Hn. unfold next. rewrite Hc.
    pose proof (lookup_lt_Some _ _ _ Hn) as Hlt.
    apply Nat.ltb_lt in Hlt. rewrite Hlt, Hn.
    assert (In k cs) as Hk
      by (apply list_elem_of_In, list_elem_of_lookup; eauto).
    destruct (first_unique cs k (length k) 0) as [p|] eqn:E.
    - rewrite (proj2 (Hg k p) (conj Hk E)). reflexivity.
    - destruct (gnippam (init cs) !! k) as [p|] eqn:Eg; [|reflexivity].
      apply Hg in Eg as [_ Eg]. congruence. }
  split; [|split].
  - intros Hn. unfold next. rewrite Hc.
    apply Nat.ltb_ge in Hn. rewrite Hn. reflexivity.
  - intros k Hn. rewrite (Hnext k Hn).
    destruct (first_unique cs k (length k) 0) as [p|] eqn:E; [|reflexivity].
    split; [reflexivity|].
    apply abbreviation_iff in E as (m & Hm & -> & _).
    rewrite length_take, Nat.min_l by lia. apply take_drop.
  - intros k k' Hn Hk' Hne Hs. rewrite (Hnext k Hn).
    rewrite (prefix_choice_no_abbreviation cs k k'); auto.
    apply list_elem_of_In, list_elem_of_lookup. eauto.
Qed.

End Abbreviations.

Lemma mapping_shortest_unique_prefix_witness :
  ShortChoices.mapping (ShortChoices.init mode_choices) !! [112%nat]
  = Some mode_pack.
Proof.
  apply (proj2 (proj1 (mapping_shortest_unique_prefix mode_choices [112%nat]
                         mode_pack))).
  split; [left; reflexivity|].
  exists 1%nat. split; [cbn; lia|]. split; [reflexivity|].
  split; [reflexivity|]. intros j Hj. lia.
Defined.

Lemma call_accepts_witness :
  ShortChoices.call (ShortChoices.init mode_choices) [117%nat]
  = Some mode_unpack /\
  ShortChoices.call (ShortChoices.init mode_choices) mode_unpack
  = Some mode_unpack.
Proof.
  split.
  - apply (proj2 (proj1 (call_accepts mode_choices [117%nat] mode_unpack))).
    split; [right; left; reflexivity | right; reflexivity].
  - apply (proj1 (proj2 (call_accepts mode_choices [117%nat] mode_unpack))).
    apply (proj2 (proj1 (call_accepts mode_choices [117%nat] mode_unpack))).
    split; [right; left; reflexivity | right; reflexivity].
Defined.

Lemma next_formats_or_raises_witness :
  ShortChoices.next 91%nat 93%nat (ShortChoices.init mode_choices) 3
  = (ShortChoices.RaisesStopIteration, 3%nat) /\
  ShortChoices.next 91%nat 93%nat
    (ShortChoices.init [mode_list; mode_list ++ [115%nat]]) 0
  = (ShortChoices.RaisesKeyError, 0%nat).
Proof.
  split.
  - apply (proj1 (next_formats_or_raises 91%nat 93%nat mode_choices 3)).
    cbn. lia.
  - apply (proj2 (proj2 (next_formats_or_raises 91%nat 93%nat
                           [mode_list; mode_list ++ [115%nat]] 0))
             mode_list (mode_list ++ [115%nat])).
    + reflexivity.
    + right. left. reflexivity.
    + discriminate.
    + reflexivity.
Defined.

(** ** Loading a key/path table *)

Section LoadMap.

Import Stdlib.Strings.Ascii.
Import PathMap PathMapLoad.

Variable splitlines : string -> list string.
Variable strip : string -> string.

Lemma cut_at_space_spec (line : string) :
  match cut_at_space line with
  | Some (a, b) =>
      line = (a ++ " " ++ b)%string /\ cut_at_space a = None
  | None => forall a b, line <> (a ++ " " ++ b)%string
  end.
Proof.
  induction line as [|c rest IH]; cbn [cut_at_space].
  - intros [|? ?] b; discriminate.
  - destruct (Ascii.eqb_spec c " "%char) as [->|Hc].
    + split; reflexivity.
    + destruct (cut_at_space rest) as [[a b]|].
      * destruct IH as [-> Ha]. split; [reflexivity|].
        cbn [cut_at_space]. destruct (Ascii.eqb_spec c " "%char); [contradiction|].
        rewrite Ha. reflexivity.
      * intros [|c' a] b; cbn; intros [= -> E]; [contradiction|].
        exact (IH a b E).
Qed.

(** What one round does to the map and to the lines printed. *)
Lemma load_line_cases (st : PathMap * list string) (line : string) :
  (line = ""%string \/ is_comment line = true) /\
    load_line strip st line = st
  \/ (line <> ""%string /\ is_comment line = false /\
      cut_at_space line = None /\
      load_line strip st line
      = (fst st, snd st ++ [("Invalid line: " ++ line)%string]))
  \/ (exists a b,
        line <> ""%string /\ is_comment line = false /\
        split1 line = [a; b] /\
        load_line strip st line
        = (map (fst st) (strip a) (strip b), snd st)).
Proof.
  unfold load_line, split1.
  destruct (String.eqb_spec line "") as [->|Hne]; [left; auto|].
  destruct (is_comment line) eqn:Hc; [left; auto|]. cbn [orb].
  destruct (cut_at_space line) as [[a b]|].
  - right. right. exists a, b. auto.
  - right. left. auto.
Qed.

Lemma split1_pair (line a b : string) :
  split1 line = [a; b] ->
  line = (a ++ " " ++ b)%string /\ cut_at_space a = None.
Proof.
  unfold split1. pose proof (cut_at_space_spec line) as Hs.
  destruct (cut_at_space line) as [[a' b']|]; [|discriminate].
  intros [= <- <-]. exact Hs.
Qed.

Lemma loadmap_snoc (l : list string) (line : string) :
  fold_left (load_line strip) (l ++ [line]) (init None, [])
  = load_line strip (fold_left (load_line strip) l (init None, [])) line.
Proof. rewrite fold_left_app. reflexivity. Qed.

(** Every key found comes from a record line. *)
Lemma load_lines_sound (l : list string) (k p : string) :
  findKey (fst (fold_left (load_line strip) l (init None, []))) k = Some p ->
  exists line a b,
    In line l /\ line <> ""%string /\ is_comment line = false /\
    split1 line = [a; b] /\ k = strip a /\ p = strip b.
Proof.
  induction l as [|line l IH] using rev_ind.
  - cbn. unfold findKey. cbn. rewrite lookup_empty. discriminate.
  - rewrite loadmap_snoc.
    set (st := fold_left (load_line strip) l (init None, [])) in *.
    assert (findKey (fst st) k = Some p ->
            exists line0 a b,
              In line0 (l ++ [line]) /\ line0 <> ""%string /\
              is_comment line0 = false /\ split1 line0 = [a; b] /\
              k = strip a /\ p = strip b) as IH'.
    { intros Hf. destruct (IH Hf) as (line0 & a & b & Hin & Hrest).
      exists line0, a, b. split; [apply in_app_iff; auto | exact Hrest]. }
    destruct (load_line_cases st line)
      as [[_ ->] | [(_ & _ & _ & ->) | (a & b & Hne & Hc & Hs & ->)]];
      cbn [fst]; try exact IH'.
    unfold findKey, map. cbn [keyMapping].
    destruct (decide (strip a = k)) as [<-|Hk].
    + rewrite lookup_insert_eq. intros [= <-].
      exists line, a, b. rewrite in_app_iff. cbn. auto 10.
    + rewrite lookup_insert_ne by exact Hk. exact IH'.
Qed.

(** Later lines that do not map a key leave its path as it is. *)
Lemma load_lines_keep (l : list string) (st : PathMap * list string)
    (k : string) :
  (forall line a b,
     In line l -> line <> ""%string -> is_comment line = false ->
     split1 line = [a; b] -> strip a <> k) ->
  findKey (fst (fold_left (load_line strip) l st)) k = findKey (fst st) k.
Proof.
  revert st. induction l as [|line l IH]; intros st Hl; [reflexivity|].
  cbn [fold_left]. rewrite IH by (intros; eapply Hl; eauto; right; auto).
  destruct (load_line_cases st line)
    as [[_ ->] | [(_ & _ & _ & ->) | (a & b & Hne & Hc & Hs & ->)]];
    cbn [fst]; try reflexivity.
  unfold findKey, map. cbn [keyMapping].
  apply lookup_insert_ne. exact (Hl line a b ltac:(left; reflexivity) Hne Hc Hs).
Qed.

(** X27: after [loadmap], the lookup by key finds only what a record line
    gives: a line that is not empty, does not start with "#" and has a
    space, the key being the stripped part before its first space and the
    path the stripped rest; and among the record lines of one key the last
    one decides. *)
Theorem loadmap_lookup (data : string) :
  (forall k p,
     findKey (fst (loadmap splitlines strip data)) k = Some p ->
     exists line a b,
       In line (splitlines data) /\ line <> ""%string /\
       is_comment line = false /\
       line = (a ++ " " ++ b)%string /\ cut_at_space a = None /\
       k = strip a /\ p = strip b) /\
  (forall l1 line l2 a b,
     splitlines data = l1 ++ line :: l2 ->
     line <> ""%string -> is_comment line = false ->
     split1 line = [a; b] ->
     (forall line' a' b',
        In line' l2 -> line' <> ""%string -> is_comment line' = false ->
        split1 line' = [a'; b'] -> strip a' <> strip a) ->
     findKey (fst (loadmap splitlines strip data)) (strip a) = Some (strip b)).
Proof.
  unfold loadmap. split.
  - intros k p Hf.
    destruct (load_lines_sound _ k p Hf)
      as (line & a & b & Hin & Hne & Hc & Hs & -> & ->).
    apply split1_pair in Hs as [Hl Ha].
    exists line, a, b. auto 10.
  - intros l1 line l2 a b -> Hne Hc Hs Hlater.
    rewrite fold_left_app. cbn [fold_left].
    rewrite load_lines_keep by exact Hlater.
    destruct (load_line_cases
                (fold_left (load_line strip) l1 (init None, [])) line)
      as [[[He|Hcom] _] | [(_ & _ & Hcut & _) | (a' & b' & _ & _ & Hs' & ->)]].
    + contradiction.
    + congruence.
    + unfold split1 in Hs. rewrite Hcut in Hs. discriminate.
    + rewrite Hs in Hs'. injection Hs' as <- <-.
      unfold findKey, map. cbn. apply lookup_insert_eq.
Qed.

(** The lines printed by a run of rounds. *)
Lemma load_lines_printed (l : list string) (msg : string) :
  In msg (snd (fold_left (load_line strip) l (init None, []))) <->
  exists line,
    In line l /\ line <> ""%string /\ is_comment line = false /\
    cut_at_space line = None /\ msg = ("Invalid line: " ++ line)%string.
Proof.
  induction l as [|line l IH] using rev_ind.
  - cbn. split; [intros [] | intros (? & [] & _)].
  - rewrite loadmap_snoc.
    set (st := fold_left (load_line strip) l (init None, [])) in *.
    destruct (load_line_cases st line)
      as [[Hskip ->] | [(Hne & Hc & Hcut & ->) | (a & b & Hne & Hc & Hs & ->)]];
      cbn [snd].
    + rewrite IH. split.
      * intros (line0 & Hin & Hrest). exists line0.
        split; [apply in_app_iff; auto | exact Hrest].
      * intros (line0 & Hin & Hne & Hc & Hrest).
        apply in_app_iff in Hin as [Hin|[<-|[]]]; [eauto 10|].
        destruct Hskip; [contradiction | congruence].
    + rewrite in_app_iff, IH. cbn [In]. split.
      * intros [(line0 & Hin & Hrest) | [<-|[]]].
        -- exists line0. split; [apply in_app_iff; auto | exact Hrest].
        -- exists line. rewrite in_app_iff. cbn. auto 10.
      * intros (line0 & Hin & Hrest).
        apply in_app_iff in Hin as [Hin|[<-|[]]]; [left; eauto 10|].
        right. left. symmetry. tauto.
    + rewrite IH. split.
      * intros (line0 & Hin & Hrest). exists line0.
        split; [apply in_app_iff; auto | exact Hrest].
      * intros (line0 & Hin & Hne0 & Hc0 & Hcut & Hmsg).
        apply in_app_iff in Hin as [Hin|[<-|[]]]; [eauto 10|].
        unfold split1 in Hs. rewrite Hcut in Hs. discriminate.
Qed.

(** X28: [loadmap] prints ["Invalid line: "] followed by the line for
    exactly the lines that are not empty, do not start with "#" and have
    no space in them (a key and a path separated by a tab only, for
    one). *)
Theorem loadmap_reports (data msg : string) :
  In msg (snd (loadmap splitlines strip data)) <->
  exists line,
    In line (splitlines data) /\ line <> ""%string /\
    is_comment line = false /\
    (forall a b, line <> (a ++ " " ++ b)%string) /\
    msg = ("Invalid line: " ++ line)%string.
Proof.
  unfold loadmap. rewrite load_lines_printed.
  split; intros (line & Hin & Hne & Hc & Hcut & Hmsg); exists line;
    (repeat split; try assumption).
  - pose proof (cut_at_space_spec line) as Hs. rewrite Hcut in Hs. exact Hs.
  - pose proof (cut_at_space_spec line) as Hs.
    destruct (cut_at_space line) as [[a b]|]; [|reflexivity].
    destruct Hs as [Hl _]. destruct (Hcut a b Hl).
Qed.

End LoadMap.

Lemma loadmap_lookup_witness :
  PathMap.findKey
    (fst (PathMapLoad.loadmap (fun d => [d]) (fun x => x) "k p")) "k"
  = Some "p"%string.
Proof.
  apply (proj2 (loadmap_lookup (fun d => [d]) (fun x => x) "k p")
           [] "k p"%string [] "k"%string "p"%string).
  - reflexivity.
  - discriminate.
  - reflexivity.
  - reflexivity.
  - intros line' a' b' [].
Defined.

Lemma loadmap_reports_witness :
  In "Invalid line: kp"%string
     (snd (PathMapLoad.loadmap (fun d => [d]) (fun x => x) "kp")).
Proof.
  apply (proj2 (loadmap_reports (fun d => [d]) (fun x => x) "kp"
                  "Invalid line: kp")).
  exists "kp"%string. split; [left; reflexivity|].
  split; [discriminate|]. split; [reflexivity|]. split; [|reflexivity].
  exact (cut_at_space_spec "kp").
Defined.
